(** * rpm_avatar_downloader: a shallow embedding of
      [download_rpm_glb_images.py] and the properties of its specification.

    Conventions of the embedding.
    - A Python [str] is a Rocq [string]; each [ascii] stands for one code
      point below 256 (the Latin-1 range).  Identifiers, paths, URLs and
      reason strings are built exactly as the source builds them.
    - The values of the query parameters are kept by their code points
      ([text]): [--background] is any command-line string, and such a
      string can hold what UTF-8 does not encode, so that [urlencode]
      raises.
    - A Python [int] is a [Z].
    - The file system is a finite map from paths to nodes (regular files with
      their bytes, directories with their [st_size]).
    - The remote service and the faults of the operating system (what a
      call does beyond what the file system map decides) are an environment
      [env] the functions are parameterised by.
    - Code that performs effects is written in a small state-and-exception
      monad over [world]; [Raise] is a Python exception that propagates. *)

From Stdlib Require Import ZArith NArith Ascii String List Lia Bool.
From stdpp Require Import base option list gmap strings pretty.

Open Scope string_scope.
Open Scope list_scope.
Open Scope Z_scope.

(** ** Python [str] primitives *)

Module PyStr.

Definition code (c : ascii) : N := N_of_ascii c.

Definition in_range (lo hi : N) (c : ascii) : bool :=
  ((lo <=? code c) && (code c <=? hi))%N.

(** [str.isspace] on one code point below 256:
    U+0009..U+000D, U+001C..U+001F, U+0020, U+0085, U+00A0. *)
Definition is_space (c : ascii) : bool :=
  in_range 9 13 c || in_range 28 32 c
  || (code c =? 133)%N || (code c =? 160)%N.

Definition is_char (x : ascii) (c : ascii) : bool := Ascii.eqb x c.

Fixpoint lstrip (p : ascii -> bool) (s : string) : string :=
  match s with
  | EmptyString => EmptyString
  | String c s' => if p c then lstrip p s' else s
  end.

Fixpoint rstrip (p : ascii -> bool) (s : string) : string :=
  match s with
  | EmptyString => EmptyString
  | String c s' =>
      match rstrip p s' with
      | EmptyString => if p c then EmptyString else String c EmptyString
      | r => String c r
      end
  end.

(** [s.strip()] is [strip is_space s]; stripping a set of characters, as
    the source does for the two quote characters, is
    [strip (is_char dquote) s] and [strip (is_char squote) s]. *)
Definition strip (p : ascii -> bool) (s : string) : string :=
  rstrip p (lstrip p s).

Definition dquote : ascii := ascii_of_N 34.
Definition squote : ascii := ascii_of_N 39.
Definition newline : ascii := ascii_of_N 10.

Definition nonempty (s : string) : bool :=
  match s with EmptyString => false | String _ _ => true end.

(** [s.startswith(p)] *)
Definition startswith (p s : string) : bool := String.prefix p s.

Fixpoint endswith_char (x : ascii) (s : string) : bool :=
  match s with
  | EmptyString => false
  | String c EmptyString => Ascii.eqb c x
  | String _ s' => endswith_char x s'
  end.

Fixpoint last_char (s : string) : option ascii :=
  match s with
  | EmptyString => None
  | String c EmptyString => Some c
  | String _ s' => last_char s'
  end.

Fixpoint all_chars (p : ascii -> bool) (s : string) : bool :=
  match s with
  | EmptyString => true
  | String c s' => p c && all_chars p s'
  end.

(** No character of [s] is in the class [p]. *)
Definition none_chars (p : ascii -> bool) (s : string) : bool :=
  all_chars (λ c, negb (p c)) s.

End PyStr.

Import PyStr.

(** A [str] by its code points, U+0000 to U+10FFFF.  A command-line
    argument is decoded with [surrogateescape]: its bytes that are not
    UTF-8 become the lone surrogates U+DC80..U+DCFF. *)
Definition text : Type := list N.

(** A [string] as a [text]. *)
Definition text_of (s : string) : text := code <$> list_ascii_of_string s.

(** ** Constants of the module *)

Definition RPM_3D_BASE : string := "https://api.readyplayer.me/v1/avatars/".
Definition RPM_2D_BASE : string := "https://models.readyplayer.me".
Definition POSES : list string :=
  ["power-stance"; "relaxed"; "standing"; "thumbs-up"].
Definition EXPRESSION : string := "happy".

(** ** The identifier parser *)

(** The character class [[a-fA-F0-9]]. *)
Definition is_hex (c : ascii) : bool :=
  in_range 48 57 c || in_range 97 102 c || in_range 65 70 c.

(** Longest prefix of hexadecimal digits, and what follows it. *)
Fixpoint span_hex (s : string) : string * string :=
  match s with
  | EmptyString => (EmptyString, EmptyString)
  | String c s' =>
      if is_hex c then
        let '(g, rest) := span_hex s' in (String c g, rest)
      else (EmptyString, s)
  end.

Definition nl : string := String newline EmptyString.

(** [ID_OR_GLB_RE.match(s)], giving [group(1)] of the match.

    The pattern is [^([a-fA-F0-9]+)(?:\.glb)?$].  The group is greedy and a
    shorter choice would leave a hexadecimal digit where only [.glb] or the
    end may follow, so the group is the longest hexadecimal prefix, which
    must be non-empty.  Without [re.MULTILINE], [$] matches at the end of the
    string and also just before a newline that ends the string. *)
Definition ID_OR_GLB_RE_match (s : string) : option string :=
  let '(g, rest) := span_hex s in
  if nonempty g then
    if bool_decide (rest ∈ [""; ".glb"; nl; ".glb" +:+ nl])
    then Some g else None
  else None.

Definition parse_id (line : string) : option string :=
  let s := strip (is_char squote) (strip (is_char dquote) (strip is_space line)) in
  if negb (nonempty s) then None
  else ID_OR_GLB_RE_match s.

(** One iteration of the loop of [main] over the lines of the input file,
    on the pair [(ids, bad)].  [if i:] holds for a non-empty string only:
    [None] and the empty string both go to the [elif]. *)
Definition parse_step (st : list string * Z) (line : string) : list string * Z :=
  let '(ids, bad) := st in
  match parse_id line with
  | Some i =>
      if nonempty i then (ids ++ [i], bad)
      else if nonempty (strip is_space line) then (ids, bad + 1) else (ids, bad)
  | None =>
      if nonempty (strip is_space line) then (ids, bad + 1) else (ids, bad)
  end.

Definition parse_lines (lines : list string) : list string * Z :=
  fold_left parse_step lines ([], 0).

(** ** The world: file system, remote service, faults *)

Abbreviation bytes := (list Byte.byte).

Inductive node : Type :=
| File (data : bytes)
| Dir (st_size : Z).

(** What the program does to the outside, in the order it happens:
    [EvFetch] marks one call of [download_file] (one fetch attempt),
    [EvGet] one HTTP GET sent by [session.get], [EvPrint] one line printed
    on the console. *)
Inductive event : Type :=
| EvFetch (url path : string)
| EvGet (url : string)
| EvPrint (line : string).

Record world : Type := World {
  fs : gmap string node;
  trace : list event
}.

(** What [session.get(url, stream=True, timeout=t)] and the following
    [iter_content] do: the request raises a transport exception of some
    kind, or a response arrives with a status and a body that streams as
    chunks and may break off with a transport exception after them. *)
Inductive response : Type :=
| Unreachable (kind : string)
| Response (status_code : Z) (chunks : list bytes) (abort : option string).

(** The calls into the operating system that may fail for reasons the file
    system map does not show (permissions, a full disk, ...).  [SysWrite]
    carries what the file already holds. *)
Inductive syscall : Type :=
| SysMkdir (path : string)
| SysOpen (path : string)
| SysWrite (path : string) (written : bytes)
| SysReplace (src dst : string)
| SysRemove (path : string).

Record env : Type := Env {
  (** the service may answer by the history of the run, the URL and the
      timeout *)
  net : list event -> string -> Z -> response;
  (** the call raises this [OSError] subclass, if any *)
  os_fault : syscall -> option string
}.

Definition node_size (n : node) : Z :=
  match n with
  | File d => Z.of_nat (length d)
  | Dir sz => sz
  end.

Definition is_dir (f : gmap string node) (p : string) : bool :=
  match f !! p with Some (Dir _) => true | _ => false end.

Definition is_file (f : gmap string node) (p : string) : bool :=
  match f !! p with Some (File _) => true | _ => false end.

(** [os.path.exists(p) and os.path.getsize(p) > 0] *)
Definition present (f : gmap string node) (p : string) : bool :=
  match f !! p with Some n => 0 <? node_size n | None => false end.

(** ** A state-and-exception monad *)

Inductive outcome (A : Type) : Type :=
| Return (a : A) (w : world)
| Raise (e : string) (w : world).
Arguments Return {A} a w.
Arguments Raise {A} e w.

Definition M (A : Type) : Type := world -> outcome A.

#[global] Instance M_ret : MRet M := λ A a w, Return a w.
#[global] Instance M_bind : MBind M := λ A B k c w,
  match c w with
  | Return a w' => k a w'
  | Raise e w' => Raise e w'
  end.

Definition raise {A} (e : string) : M A := λ w, Raise e w.

(** [try: body  except Exception as e: handler(type(e).__name__)] *)
Definition try_except {A} (body : M A) (handler : string -> M A) : M A :=
  λ w, match body w with
       | Return a w' => Return a w'
       | Raise e w' => handler e w'
       end.

Definition get_fs : M (gmap string node) := λ w, Return (fs w) w.
Definition put_fs (f : gmap string node) : M unit :=
  λ w, Return tt (World f (trace w)).
Definition log (e : event) : M unit :=
  λ w, Return tt (World (fs w) (trace w ++ [e])).

Definition final_world {A} (o : outcome A) : world :=
  match o with Return _ w => w | Raise _ w => w end.

(** The value a computation returned, if it returned. *)
Definition result_of {A} (o : outcome A) : option A :=
  match o with Return a _ => Some a | Raise _ _ => None end.

(** The exception a computation raised, if it raised. *)
Definition raised_of {A} (o : outcome A) : option string :=
  match o with Return _ _ => None | Raise e _ => Some e end.

(** The lines printed among some events, the destination paths of the
    fetch attempts among them, and the URLs of the GET requests. *)
Definition printed (evs : list event) : list string :=
  omap (λ e, match e with EvPrint l => Some l | _ => None end) evs.

Definition fetch_paths (evs : list event) : list string :=
  omap (λ e, match e with EvFetch _ p => Some p | _ => None end) evs.

Definition get_urls (evs : list event) : list string :=
  omap (λ e, match e with EvGet u => Some u | _ => None end) evs.

(** ** The operating system and the HTTP session *)

Module os.

Definition path_exists (p : string) : M bool :=
  f ← get_fs; mret (bool_decide (is_Some (f !! p))).

Definition path_getsize (p : string) : M Z :=
  f ← get_fs;
  match f !! p with
  | Some n => mret (node_size n)
  | None => raise "FileNotFoundError"
  end.

(** [posixpath.join(a, b)] *)
Definition path_join (a b : string) : string :=
  if startswith "/" b then b
  else if negb (nonempty a) || endswith_char "/" a then a +:+ b
  else a +:+ "/" +:+ b.

(** [os.makedirs(path, exist_ok=True)].  An existing directory is left as
    it is, a regular file in the way raises [FileExistsError], and creating
    the directory may fail as the environment says; the directories above
    [path] are not represented in the flat map. *)
Definition makedirs (E : env) (path : string) : M unit :=
  f ← get_fs;
  match f !! path with
  | Some (Dir _) => mret tt
  | Some (File _) => raise "FileExistsError"
  | None =>
      match os_fault E (SysMkdir path) with
      | Some k => raise k
      | None => put_fs (<[path := Dir 4096]> f)
      end
  end.

(** [open(path, "wb")]: the file is created or truncated. *)
Definition open_wb (E : env) (path : string) : M unit :=
  match os_fault E (SysOpen path) with
  | Some k => raise k
  | None =>
      f ← get_fs;
      match f !! path with
      | Some (Dir _) => raise "IsADirectoryError"
      | _ => put_fs (<[path := File []]> f)
      end
  end.

(** [f.write(chunk)] on the file opened at [path]. *)
Definition write (E : env) (path : string) (chunk : bytes) : M unit :=
  f ← get_fs;
  match f !! path with
  | Some (File d) =>
      match os_fault E (SysWrite path d) with
      | Some k => raise k
      | None => put_fs (<[path := File (d ++ chunk)]> f)
      end
  | _ => raise "OSError"
  end.

(** [os.replace(src, dst)]: one atomic rename. *)
Definition replace (E : env) (src dst : string) : M unit :=
  match os_fault E (SysReplace src dst) with
  | Some k => raise k
  | None =>
      f ← get_fs;
      match f !! src, f !! dst with
      | None, _ => raise "FileNotFoundError"
      | Some (File _), Some (Dir _) => raise "IsADirectoryError"
      | Some (Dir _), Some (File _) => raise "NotADirectoryError"
      | Some n, _ => put_fs (<[dst := n]> (delete src f))
      end
  end.

(** [os.remove(path)] *)
Definition remove (E : env) (path : string) : M unit :=
  match os_fault E (SysRemove path) with
  | Some k => raise k
  | None =>
      f ← get_fs;
      match f !! path with
      | Some (File _) => put_fs (delete path f)
      | Some (Dir _) => raise "IsADirectoryError"
      | None => raise "FileNotFoundError"
      end
  end.

End os.

(** [session.get(url, stream=True, timeout=timeout)]: the response value
    is the status with the body still to be streamed. *)
Definition session_get (E : env) (url : string) (timeout : Z)
  : M (Z * list bytes * option string) :=
  λ w,
    let w1 := World (fs w) (trace w ++ [EvGet url]) in
    match net E (trace w) url timeout with
    | Unreachable k => Raise k w1
    | Response st cs ab => Return (st, cs, ab) w1
    end.

(** ** [safe_mkdir] *)

Definition safe_mkdir (E : env) (path : string) : M unit :=
  os.makedirs E path.

(** ** The resource fetcher, [download_file] *)

Definition nonempty_bytes (c : bytes) : bool :=
  match c with [] => false | _ :: _ => true end.

(** [for chunk in r.iter_content(...): if chunk: f.write(chunk)] over the
    chunks that arrive. *)
Fixpoint write_chunks (E : env) (tmp : string) (cs : list bytes) : M unit :=
  match cs with
  | [] => mret tt
  | c :: cs' =>
      (if nonempty_bytes c then os.write E tmp c else mret tt) ;;
      write_chunks E tmp cs'
  end.

(** The end of the stream: the iterator stops, or raises. *)
Definition stream_end (ab : option string) : M unit :=
  match ab with
  | Some k => raise k
  | None => mret tt
  end.

(** [os.path.exists(out_path) and os.path.getsize(out_path) > 0] *)
Definition already_there (out_path : string) : M bool :=
  ex ← os.path_exists out_path;
  if ex : bool then sz ← os.path_getsize out_path; mret (0 <? sz)
  else mret false.

(** The body of the [try]. *)
Definition fetch_body (E : env) (url tmp out_path : string) (timeout : Z)
  : M (bool * string) :=
  '(status_code, cs, ab) ← session_get E url timeout;
  if negb (status_code =? 200)
  then mret (false, "http_" +:+ pretty status_code)
  else
    os.open_wb E tmp ;;
    write_chunks E tmp cs ;;
    stream_end ab ;;
    os.replace E tmp out_path ;;
    mret (true, "downloaded").

(** The [except Exception as e] clause, [e] being [type(e).__name__]. *)
Definition fetch_cleanup (E : env) (tmp e : string) : M (bool * string) :=
  ex ← os.path_exists tmp;
  (if ex : bool then os.remove E tmp else mret tt) ;;
  mret (false, "error_" +:+ e).

Definition tmp_of (out_path : string) : string := out_path +:+ ".part".

Definition download_file (E : env) (url out_path : string) (timeout : Z)
  : M (bool * string) :=
  log (EvFetch url out_path) ;;
  big ← already_there out_path;
  if big : bool then mret (true, "exists")
  else
    let tmp := tmp_of out_path in
    try_except (fetch_body E url tmp out_path timeout) (fetch_cleanup E tmp).

(** ** Image URLs: [urlencode] and [render_url] *)

Module urllib.

Definition hex_digit (n : N) : ascii :=
  ascii_of_N (if (n <? 10)%N then 48 + n else 55 + n)%N.

(** [%XX] for one byte. *)
Definition pct (b : N) : string :=
  String "%" (String (hex_digit (b / 16)) (String (hex_digit (b mod 16)) "")).

Definition is_alnum (c : ascii) : bool :=
  in_range 48 57 c || in_range 97 122 c || in_range 65 90 c.

(** Characters [quote_plus] never escapes: letters, digits and [_.-~]. *)
Definition is_unreserved (c : ascii) : bool :=
  is_alnum c || bool_decide (c ∈ ["_"; "."; "-"; "~"]%char).

(** [quote_plus] on one code point below 256, through its UTF-8 bytes. *)
Definition quote_char (c : ascii) : string :=
  if is_unreserved c then String c ""
  else if Ascii.eqb c " " then "+"
  else if (code c <? 128)%N then pct (code c)
  else pct (192 + code c / 64) +:+ pct (128 + code c mod 64).

(** [quote_plus] on a string of the Latin-1 range, where the encoding
    cannot fail; the keys of the query are such strings. *)
Fixpoint quote_plus (s : string) : string :=
  match s with
  | EmptyString => EmptyString
  | String c s' => quote_char c +:+ quote_plus s'
  end.

(** The UTF-8 bytes of one code point.  A surrogate, U+D800..U+DFFF, has
    none: [str.encode] raises [UnicodeEncodeError] there. *)
Definition utf8 (cp : N) : option (list N) :=
  (if cp <? 128 then Some [cp]
   else if cp <? 2048 then Some [192 + cp / 64; 128 + cp mod 64]
   else if (55296 <=? cp) && (cp <=? 57343) then None
   else if cp <? 65536
        then Some [224 + cp / 4096; 128 + (cp / 64) mod 64; 128 + cp mod 64]
        else Some [240 + cp / 262144; 128 + (cp / 4096) mod 64;
                   128 + (cp / 64) mod 64; 128 + cp mod 64])%N.

(** [s.encode("utf-8", "strict")] *)
Fixpoint encode (t : text) : option (list N) :=
  match t with
  | [] => Some []
  | cp :: t' => bs ← utf8 cp; bs' ← encode t'; Some (bs ++ bs')
  end.

(** [quote_plus] on one byte. *)
Definition quote_byte (b : N) : string :=
  if (b <? 128)%N then quote_char (ascii_of_N b) else pct b.

Fixpoint quote_bytes (bs : list N) : string :=
  match bs with
  | [] => EmptyString
  | b :: bs' => quote_byte b +:+ quote_bytes bs'
  end.

(** [quote_plus] on a value given by its code points: the value is
    encoded first, and [None] stands for the [UnicodeEncodeError] of that
    encoding. *)
Definition quote_plus_text (t : text) : option string :=
  quote_bytes <$> encode t.

Fixpoint join (sep : string) (l : list string) : string :=
  match l with
  | [] => ""
  | [x] => x
  | x :: l' => x +:+ sep +:+ join sep l'
  end.

(** [urlencode(params)] of a [dict], in insertion order; [None] stands for
    the [UnicodeEncodeError] of a value that cannot be encoded.  The keys
    are the literal names the program uses. *)
Definition urlencode (params : list (string * text)) : option string :=
  join "&" <$>
    mapM (λ kv : string * text,
            v ← quote_plus_text kv.2; Some (quote_plus kv.1 +:+ "=" +:+ v))
      params.

End urllib.

(** A [dict] with string keys keeps its insertion order: an association
    list without repeated keys.  [dict_set d k v] is [d[k] = v]. *)
Fixpoint dict_set (d : list (string * text)) (k : string) (v : text)
  : list (string * text) :=
  match d with
  | [] => [(k, v)]
  | (k', v') :: d' =>
      if String.eqb k' k then (k', v) :: d' else (k', v') :: dict_set d' k v
  end.

(** [None] stands for the [UnicodeEncodeError] that [urlencode] raises. *)
Definition render_url (avatar_id : string) (params : list (string * text))
  : option string :=
  q ← urllib.urlencode params;
  Some (RPM_2D_BASE +:+ "/" +:+ avatar_id +:+ ".png?" +:+ q).

(** ** The avatar task, [process_avatar] *)

Record AvatarResult : Type := mkResult {
  avatar : string;
  glb : option string;
  png_ok : Z;
  png_fail : Z
}.

Definition glb_path (out_root avatar_id : string) : string :=
  os.path_join (os.path_join out_root avatar_id) (avatar_id +:+ ".glb").

Definition glb_url (avatar_id : string) : string :=
  RPM_3D_BASE +:+ avatar_id +:+ ".glb".

Definition png_path (out_root avatar_id pose : string) : string :=
  os.path_join (os.path_join out_root avatar_id)
    (avatar_id +:+ "__pose-" +:+ pose +:+ "__expr-" +:+ EXPRESSION +:+ ".png").

(** [params = dict(base_params); params["pose"] = pose;
     render_url(avatar_id, params)] *)
Definition png_url (avatar_id : string) (base_params : list (string * text))
    (pose : string) : option string :=
  render_url avatar_id (dict_set base_params "pose" (text_of pose)).

(** A value computed outside every [try]: its exception propagates. *)
Definition encoded {A} (o : option A) : M A :=
  match o with
  | Some a => mret a
  | None => raise "UnicodeEncodeError"
  end.

(** The body of [for pose in POSES], on the result built so far. *)
Definition pose_step (E : env) (avatar_id out_root : string)
    (base_params : list (string * text)) (timeout : Z)
    (result : AvatarResult) (pose : string) : M AvatarResult :=
  url ← encoded (png_url avatar_id base_params pose);
  '(ok, _) ← download_file E url (png_path out_root avatar_id pose) timeout;
  if ok : bool
  then mret (mkResult (avatar result) (glb result) (png_ok result + 1) (png_fail result))
  else mret (mkResult (avatar result) (glb result) (png_ok result) (png_fail result + 1)).

Fixpoint pose_loop (E : env) (avatar_id out_root : string)
    (base_params : list (string * text)) (timeout : Z)
    (poses : list string) (result : AvatarResult) : M AvatarResult :=
  match poses with
  | [] => mret result
  | pose :: rest =>
      result' ← pose_step E avatar_id out_root base_params timeout result pose;
      pose_loop E avatar_id out_root base_params timeout rest result'
  end.

(** The [requests.Session] of the task and its [User-Agent] header live in
    [env]: [net E] is what that session receives. *)
Definition process_avatar (E : env) (avatar_id out_root : string)
    (base_params : list (string * text)) (timeout : Z) : M AvatarResult :=
  let result := mkResult avatar_id None 0 0 in
  let avatar_dir := os.path_join out_root avatar_id in
  safe_mkdir E avatar_dir ;;
  '(ok, reason) ← download_file E (glb_url avatar_id)
                    (glb_path out_root avatar_id) timeout;
  if negb ok
  then mret (mkResult (avatar result) (Some ("FAILED (" +:+ reason +:+ ")"))
               (png_ok result) (png_fail result))
  else
    let result := mkResult (avatar result) (Some reason)
                    (png_ok result) (png_fail result) in
    pose_loop E avatar_id out_root base_params timeout POSES result.

(** ** Dispatch and aggregation, [main] *)

(** A finished future holds the task's value or the exception it raised. *)
Inductive future : Type :=
| Done (r : AvatarResult)
| Failed (e : string).

(** The parsed command line.  [camera] is one of the three names
    [argparse] admits; [background] is any string of the command line. *)
Module Args.
Record t : Type := mk {
  input_file : string;
  output_dir : string;
  threads : Z;
  size : Z;
  camera : string;
  background : text;
  timeout : Z
}.
End Args.

(** The counters of [main]. *)
Module Summary.
Record t : Type := mk {
  ok_glb : Z;
  fail_glb : Z;
  png_ok : Z;
  png_fail : Z
}.
Definition zero : t := mk 0 0 0 0.
End Summary.

Definition print (line : string) : M unit := log (EvPrint line).

(** A pool that runs every submitted task to its end, one after the other;
    a task that raises leaves its exception in its future.  This is what
    the thread pool does with one task or one thread, and what it amounts
    to when no two tasks share a path (distinct identifiers); tasks for a
    repeated identifier that run at the same time are outside it. *)
Fixpoint run_pool (E : env) (out_root : string)
    (base_params : list (string * text)) (timeout : Z)
    (tasks : list string) : M (list future) :=
  match tasks with
  | [] => mret []
  | avatar_id :: rest =>
      f ← try_except
            (r ← process_avatar E avatar_id out_root base_params timeout;
             mret (Done r))
            (λ e, mret (Failed e));
      fs' ← run_pool E out_root base_params timeout rest;
      mret (f :: fs')
  end.

(** The counting part of the body of [for f in as_completed(futures)];
    [None] when [r["glb"]] is not a string. *)
Definition count (s : Summary.t) (r : AvatarResult) : option Summary.t :=
  g ← glb r;
  Some (if startswith "FAILED" g
        then Summary.mk (Summary.ok_glb s) (Summary.fail_glb s + 1)
               (Summary.png_ok s + png_ok r) (Summary.png_fail s + png_fail r)
        else Summary.mk (Summary.ok_glb s + 1) (Summary.fail_glb s)
               (Summary.png_ok s + png_ok r) (Summary.png_fail s + png_fail r)).

Definition progress_line (r : AvatarResult) (g : string) : string :=
  if startswith "FAILED" g
  then "[" +:+ avatar r +:+ "] GLB " +:+ g
  else "[" +:+ avatar r +:+ "] GLB " +:+ g +:+ " | PNG ok=" +:+ pretty (png_ok r)
       +:+ " fail=" +:+ pretty (png_fail r).

Fixpoint aggregate (futures : list future) (s : Summary.t) : M Summary.t :=
  match futures with
  | [] => mret s
  | Failed e :: _ => raise e
  | Done r :: rest =>
      match glb r, count s r with
      | Some g, Some s' => print (progress_line r g) ;; aggregate rest s'
      | _, _ => raise "AttributeError"
      end
  end.

(** One more result on totals that may already be lost. *)
Definition count_on (acc : option Summary.t) (r : AvatarResult)
  : option Summary.t :=
  s ← acc; count s r.

(** The totals alone, without the console. *)
Definition totals (results : list AvatarResult) : option Summary.t :=
  foldl count_on (Some Summary.zero) results.

(** The test [r["glb"].startswith("FAILED")] of the aggregator. *)
Definition model_failed (r : AvatarResult) : bool :=
  match glb r with Some g => startswith "FAILED" g | None => false end.

Definition exit_code (s : Summary.t) : Z :=
  if Summary.fail_glb s =? 0 then 0 else 2.

Definition base_params_of (a : Args.t) : list (string * text) :=
  [("size", text_of (pretty (Z.max 1 (Z.min 1024 (Args.size a)))));
   ("camera", text_of (Args.camera a));
   ("background", Args.background a);
   ("expression", text_of EXPRESSION)].

Definition startup_line (a : Args.t) (ids : list string) (bad : Z) : string :=
  "Avatars: " +:+ pretty (Z.of_nat (length ids)) +:+ " | Threads: "
  +:+ pretty (Args.threads a) +:+ " | Bad lines: " +:+ pretty bad.

Definition summary_lines (s : Summary.t) : list string :=
  [String newline "=== SUMMARY ===";
   "GLB ok: " +:+ pretty (Summary.ok_glb s) +:+ " | GLB failed: "
   +:+ pretty (Summary.fail_glb s);
   "PNG ok: " +:+ pretty (Summary.png_ok s) +:+ " | PNG failed: "
   +:+ pretty (Summary.png_fail s)].

(** What reading [args.input_file] gives: its lines, or the exception of
    [open] or of the decoding ([FileNotFoundError], [UnicodeDecodeError],
    ...).  Nothing happens between the lines read, so an exception in the
    middle of the file is the same as one at its start. *)
Inductive input_file : Type :=
| Lines (lines : list string)
| Unreadable (e : string).

Definition read_lines (input : input_file) : M (list string) :=
  match input with
  | Lines lines => mret lines
  | Unreadable e => raise e
  end.

Section Main.

(** The worker pool is library code: [ThreadPoolExecutor] runs the tasks
    submitted for the identifiers in its threads, and [as_completed] hands
    their futures over as they finish.  [main] is written over any
    computation that ends with the finished futures. *)
Variable pool :
  env → string → list (string * text) → Z → list string → M (list future).

(** [main], from the parsed command line [a] and what reading
    [a.input_file] gives.  [ThreadPoolExecutor(max_workers=n)] raises
    [ValueError] for [n <= 0]. *)
Definition main (E : env) (a : Args.t) (input : input_file) : M Z :=
  safe_mkdir E (Args.output_dir a) ;;
  lines ← read_lines input;
  let '(ids, bad) := parse_lines lines in
  match ids with
  | [] => print "No valid avatar IDs found." ;; mret 1
  | _ :: _ =>
      print (startup_line a ids bad) ;;
      let base_params := base_params_of a in
      (if Args.threads a <=? 0 then raise "ValueError" else mret tt) ;;
      futures ← pool E (Args.output_dir a) base_params (Args.timeout a) ids;
      s ← aggregate futures Summary.zero;
      mapM print (summary_lines s) ;;
      mret (exit_code s)
  end.

End Main.

(** The pool that runs the tasks one after the other, in the order
    [completion] gives: the order in which they finish. *)
Definition sequential (completion : list string → list string)
    (E : env) (out_root : string) (base_params : list (string * text))
    (timeout : Z) (ids : list string) : M (list future) :=
  run_pool E out_root base_params timeout (completion ids).

(** [raise SystemExit(main())]: the status the process ends with.  An
    exception that leaves [main] is caught by nothing: the interpreter
    prints the traceback and the status is 1. *)
Definition exit_status (o : outcome Z) : Z :=
  match o with
  | Return c _ => c
  | Raise _ _ => 1
  end.

(** What [ap.parse_args()], the first statement of [main], makes of the
    command line: the arguments, or the end of the process by
    [argparse] itself, with status 0 after [--help] and status 2 for a
    command line it rejects. *)
Inductive command_line : Type :=
| Parsed (a : Args.t)
| Help
| Rejected.

(** The status of the whole script. *)
Definition script
    (pool : env → string → list (string * text) → Z → list string
            → M (list future))
    (E : env) (cl : command_line) (input : input_file) (w : world) : Z :=
  match cl with
  | Parsed a => exit_status (main pool E a input w)
  | Help => 0
  | Rejected => 2
  end.

(** ** Notions the properties are stated with *)

Definition head_not (p : ascii -> bool) (s : string) : Prop :=
  match s with EmptyString => True | String c _ => p c = false end.

Definition last_not (p : ascii -> bool) (s : string) : Prop :=
  ∀ c, last_char s = Some c → p c = false.

(** A line as the input file may hold it: the core between single quotes,
    double quotes and white space. *)
Definition wrap (ws1 d1 s1 core s2 d2 ws2 : string) : string :=
  ws1 +:+ (d1 +:+ (s1 +:+ core +:+ s2) +:+ d2) +:+ ws2.

(** Characters an extension is made of: no white space, no quote. *)
Definition ext_char (c : ascii) : bool :=
  negb (is_space c) && negb (is_char dquote c) && negb (is_char squote c).

(** What the writes of the chunks leave in the temporary file that held
    [d], and the exception of the write that failed, if one did. *)
Fixpoint written (E : env) (tmp : string) (d : bytes) (cs : list bytes)
  : bytes * option string :=
  match cs with
  | [] => (d, None)
  | c :: cs' =>
      if nonempty_bytes c then
        match os_fault E (SysWrite tmp d) with
        | Some k => (d, Some k)
        | None => written E tmp (d ++ c) cs'
        end
      else written E tmp d cs'
  end.

(** What the [except] clause raises over the file system [f], if it
    raises: the fault of [os.remove], or [IsADirectoryError] when the
    temporary path holds a directory. *)
Definition cleanup_error (E : env) (f : gmap string node) (tmp : string)
  : option string :=
  match f !! tmp with
  | None => None
  | Some n =>
      match os_fault E (SysRemove tmp), n with
      | Some e, _ => Some e
      | None, Dir _ => Some "IsADirectoryError"
      | None, File _ => None
      end
  end.

(** The temporary path can be cleaned up: [os.remove] has no fault there
    and no directory lies there. *)
Definition cleanable (E : env) (f : gmap string node) (tmp : string) : Prop :=
  os_fault E (SysRemove tmp) = None ∧ is_dir f tmp = false.

(** Why the body of the [try] raises an exception of kind [k], and the file
    system [f'] it leaves to the [except] clause. *)
Inductive try_raises (E : env) (url out_path : string) (timeout : Z)
    (w : world) : string → gmap string node → Prop :=
| TR_unreachable k :
    net E (trace w ++ [EvFetch url out_path]) url timeout = Unreachable k →
    try_raises E url out_path timeout w k (fs w)
| TR_open cs ab k :
    net E (trace w ++ [EvFetch url out_path]) url timeout = Response 200 cs ab →
    os_fault E (SysOpen (tmp_of out_path)) = Some k →
    try_raises E url out_path timeout w k (fs w)
| TR_open_dir cs ab :
    net E (trace w ++ [EvFetch url out_path]) url timeout = Response 200 cs ab →
    os_fault E (SysOpen (tmp_of out_path)) = None →
    is_dir (fs w) (tmp_of out_path) = true →
    try_raises E url out_path timeout w "IsADirectoryError" (fs w)
| TR_write cs ab d k :
    net E (trace w ++ [EvFetch url out_path]) url timeout = Response 200 cs ab →
    os_fault E (SysOpen (tmp_of out_path)) = None →
    is_dir (fs w) (tmp_of out_path) = false →
    written E (tmp_of out_path) [] cs = (d, Some k) →
    try_raises E url out_path timeout w k
      (<[tmp_of out_path := File d]> (fs w))
| TR_abort cs d k :
    net E (trace w ++ [EvFetch url out_path]) url timeout
      = Response 200 cs (Some k) →
    os_fault E (SysOpen (tmp_of out_path)) = None →
    is_dir (fs w) (tmp_of out_path) = false →
    written E (tmp_of out_path) [] cs = (d, None) →
    try_raises E url out_path timeout w k
      (<[tmp_of out_path := File d]> (fs w))
| TR_replace cs d k :
    net E (trace w ++ [EvFetch url out_path]) url timeout
      = Response 200 cs None →
    os_fault E (SysOpen (tmp_of out_path)) = None →
    is_dir (fs w) (tmp_of out_path) = false →
    written E (tmp_of out_path) [] cs = (d, None) →
    os_fault E (SysReplace (tmp_of out_path) out_path) = Some k →
    try_raises E url out_path timeout w k
      (<[tmp_of out_path := File d]> (fs w))
| TR_replace_dir cs d :
    net E (trace w ++ [EvFetch url out_path]) url timeout
      = Response 200 cs None →
    os_fault E (SysOpen (tmp_of out_path)) = None →
    is_dir (fs w) (tmp_of out_path) = false →
    written E (tmp_of out_path) [] cs = (d, None) →
    os_fault E (SysReplace (tmp_of out_path) out_path) = None →
    is_dir (fs w) out_path = true →
    try_raises E url out_path timeout w "IsADirectoryError"
      (<[tmp_of out_path := File d]> (fs w)).

(** Every way a call of [download_file] can end. *)
Inductive fetch_ends (E : env) (url out_path : string) (timeout : Z)
    (w : world) : outcome (bool * string) → Prop :=
| FE_exists :
    present (fs w) out_path = true →
    fetch_ends E url out_path timeout w
      (Return (true, "exists")
         (World (fs w) (trace w ++ [EvFetch url out_path])))
| FE_http st cs ab :
    present (fs w) out_path = false →
    net E (trace w ++ [EvFetch url out_path]) url timeout = Response st cs ab →
    st ≠ 200 →
    fetch_ends E url out_path timeout w
      (Return (false, "http_" +:+ pretty st)
         (World (fs w) (trace w ++ [EvFetch url out_path; EvGet url])))
| FE_downloaded cs :
    present (fs w) out_path = false →
    net E (trace w ++ [EvFetch url out_path]) url timeout
      = Response 200 cs None →
    os_fault E (SysOpen (tmp_of out_path)) = None →
    is_dir (fs w) (tmp_of out_path) = false →
    written E (tmp_of out_path) [] cs = (concat cs, None) →
    os_fault E (SysReplace (tmp_of out_path) out_path) = None →
    is_dir (fs w) out_path = false →
    fetch_ends E url out_path timeout w
      (Return (true, "downloaded")
         (World (<[out_path := File (concat cs)]>
                   (delete (tmp_of out_path) (fs w)))
            (trace w ++ [EvFetch url out_path; EvGet url])))
| FE_error k f' :
    present (fs w) out_path = false →
    try_raises E url out_path timeout w k f' →
    cleanup_error E f' (tmp_of out_path) = None →
    fetch_ends E url out_path timeout w
      (Return (false, "error_" +:+ k)
         (World (delete (tmp_of out_path) (fs w))
            (trace w ++ [EvFetch url out_path; EvGet url])))
| FE_raise k f' e :
    present (fs w) out_path = false →
    try_raises E url out_path timeout w k f' →
    cleanup_error E f' (tmp_of out_path) = Some e →
    fetch_ends E url out_path timeout w
      (Raise e (World f' (trace w ++ [EvFetch url out_path; EvGet url]))).

(** What one image outcome does to the result. *)
Definition bump (ok : bool) (r : AvatarResult) : AvatarResult :=
  if ok then mkResult (avatar r) (glb r) (png_ok r + 1) (png_fail r)
  else mkResult (avatar r) (glb r) (png_ok r) (png_fail r + 1).

Definition n_ok (oks : list bool) : Z := Z.of_nat (length (List.filter id oks)).
Definition n_fail (oks : list bool) : Z :=
  Z.of_nat (length (List.filter negb oks)).

(** The image fetches of a task, pose after pose: each is one call of
    [download_file], on the URL rendered for the pose, from the world the
    one before left, whatever that one returned. *)
Inductive fetch_chain (E : env) (avatar_id out_root : string)
    (base_params : list (string * text)) (timeout : Z)
  : list string → world → list bool → world → Prop :=
| chain_nil w :
    fetch_chain E avatar_id out_root base_params timeout [] w [] w
| chain_cons pose rest w url ok reason w1 oks w2 :
    png_url avatar_id base_params pose = Some url →
    download_file E url (png_path out_root avatar_id pose) timeout w
      = Return (ok, reason) w1 →
    fetch_chain E avatar_id out_root base_params timeout rest w1 oks w2 →
    fetch_chain E avatar_id out_root base_params timeout
      (pose :: rest) w (ok :: oks) w2.

(** The query parameters can be URL-encoded, whichever pose is set. *)
Definition encodable (base_params : list (string * text)) : Prop :=
  ∀ pose : string,
    is_Some (urllib.urlencode (dict_set base_params "pose" (text_of pose))).

(** The five destination paths of an avatar task. *)
Definition task_paths (out_root avatar_id : string) : list string :=
  glb_path out_root avatar_id :: map (png_path out_root avatar_id) POSES.

(** The world in which the pool starts. *)
Definition pool_start (a : Args.t) (lines : list string) (w1 : world) : world :=
  World (fs w1)
    (trace w1 ++ [EvPrint (startup_line a (parse_lines lines).1 (parse_lines lines).2)]).


(** ** Sample services and worlds *)

(** An environment whose operating system never fails by itself. *)
Definition quiet (service : list event → string → Z → response) : env :=
  Env service (λ _, None).

Definition sample_body : list bytes := [[Byte.x89; Byte.x50]; []; [Byte.x4e]].

Definition service_ok : env := quiet (λ _ _ _, Response 200 sample_body None).

Definition service_404 : env := quiet (λ _ _ _, Response 404 [] None).

(** The connection breaks after the first chunks of every body. *)
Definition service_breaking : env :=
  quiet (λ _ _ _, Response 200 sample_body (Some "ChunkedEncodingError")).

Definition demo_params : list (string * text) :=
  [("size", text_of "1024"); ("camera", text_of "portrait");
   ("background", text_of "0,0,0"); ("expression", text_of EXPRESSION)].

Definition demo_args : Args.t :=
  Args.mk "ids.txt" "out" 2 1024 "portrait" (text_of "0,0,0") 60.

(** [--threads 0] *)
Definition no_thread_args : Args.t :=
  Args.mk "ids.txt" "out" 0 1024 "portrait" (text_of "0,0,0") 60.

(** A background given on the command line by the byte 0xFF, which is not
    UTF-8: the lone surrogate U+DCFF. *)
Definition stray_background : text := [56575%N].

Definition stray_params : list (string * text) :=
  [("size", text_of "1024"); ("camera", text_of "portrait");
   ("background", stray_background); ("expression", text_of EXPRESSION)].

(** The poses whose outcome, in the order of [POSES], is a failure. *)
Definition failing_poses (oks : list bool) : list string :=
  omap (λ po : string * bool, if po.2 then None else Some po.1) (zip POSES oks).

(** A service that answers 404 for the images of the given poses and 200
    with a body for everything else. *)
Definition service_failing (avatar_id : string)
    (params : list (string * text)) (fails : list string) : env :=
  quiet (λ _ url _,
    if bool_decide (url ∈ omap (png_url avatar_id params) fails)
    then Response 404 [] None
    else Response 200 sample_body None).

(** A service that has the models of the given identifiers only. *)
Definition service_models (known : list string) : env :=
  quiet (λ _ url _,
    if bool_decide (url ∈ glb_url <$> known) || negb (startswith RPM_3D_BASE url)
    then Response 200 sample_body None
    else Response 404 [] None).

Definition w_empty : world := World ∅ [].

(** The output directory is there, and a regular file lies where the
    directory of avatar [0a1b] should go. *)
Definition w_blocked : world :=
  World (<["out/0a1b" := File []]> {["out" := Dir 4096]}) [].

(** A temporary file of an earlier, interrupted run is still there. *)
Definition w_stale : world :=
  World {[tmp_of (glb_path "out" "0a1b") := File [Byte.x89]]} [].

(** The five files of avatar [0a1b] are there, none empty. *)
Definition w_full : world :=
  World (list_to_map (("out/0a1b", Dir 4096)
                      :: ((λ p, (p, File [Byte.x89])) <$> task_paths "out" "0a1b")))
    [].


(** A directory lies at the temporary path of the image of the third pose. *)
Definition w_part_dir : world :=
  World {[tmp_of (png_path "out" "0a1b" "standing") := Dir 4096]} [].

(** A regular file lies where the directory of avatar [00ff] should go. *)
Definition w_blocked_00ff : world :=
  World {["out/00ff" := File []]} [].

(** [os.remove] is refused on every path. *)
Definition service_no_remove : env :=
  Env (λ _ _ _, Response 200 sample_body (Some "ChunkedEncodingError"))
      (λ c, match c with SysRemove _ => Some "PermissionError" | _ => None end).

(** ** Further notions *)

(** The temporary paths of an avatar task, and all the paths it may write:
    its directory, its five files and their temporary paths. *)
Definition task_temps (out_root avatar_id : string) : list string :=
  tmp_of <$> task_paths out_root avatar_id.

Definition task_footprint (out_root avatar_id : string) : list string :=
  os.path_join out_root avatar_id
  :: task_paths out_root avatar_id ++ task_temps out_root avatar_id.

(** An identifier as [parse_id] gives them: hexadecimal digits, at least
    one. *)
Definition hex_id (s : string) : Prop :=
  nonempty s = true ∧ all_chars is_hex s = true.

(** The shape every result of [process_avatar] has. *)
Definition well_formed_result (avatar_id : string) (r : AvatarResult) : Prop :=
  avatar r = avatar_id
  ∧ ((∃ reason, glb r = Some ("FAILED (" +:+ reason +:+ ")"))
     ∧ png_ok r = 0 ∧ png_fail r = 0
     ∨ (glb r = Some "exists" ∨ glb r = Some "downloaded")
       ∧ 0 ≤ png_ok r ∧ 0 ≤ png_fail r ∧ png_ok r + png_fail r = 4).

(** A 200 response whose body has no byte. *)
Definition service_empty_body : env :=
  quiet (λ _ _ _, Response 200 [[]; []] None).

(** A line that is not blank: something is left once white space is
    stripped. *)
Definition non_blank (line : string) : bool := nonempty (strip is_space line).

(** What [posixpath.join] puts before a relative second part. *)
Definition root_prefix (root : string) : string :=
  if negb (nonempty root) || endswith_char "/" root then root
  else root +:+ "/".


(** A service that never answers 200 with a body of no byte. *)
Definition never_empty (E : env) : Prop :=
  ∀ tr url timeout cs,
    net E tr url timeout = Response 200 cs None → concat cs ≠ [].


(** What is left of a line once white space and the two kinds of quote are
    stripped: the string [parse_id] matches against the pattern. *)
Definition stripped (line : string) : string :=
  strip (is_char squote) (strip (is_char dquote) (strip is_space line)).

(** What the pattern admits after the identifier. *)
Definition tails : list string := [""; ".glb"; nl; ".glb" +:+ nl].

(** * Properties *)

(** ** The primitives at sample inputs *)

Example parse_id_samples :
  parse_id "abc123.glb" = Some "abc123"
  ∧ parse_id ("  'DEADbeef' " +:+ nl) = Some "DEADbeef"
  ∧ parse_id "not-hex!" = None
  ∧ parse_id "abc123.glb.glb" = None
  ∧ parse_id (String dquote (String dquote EmptyString)) = None.
Proof. by vm_compute. Qed.

Example parse_lines_sample :
  parse_lines ["abc123.glb" +:+ nl; "  " +:+ nl; "not-hex!" +:+ nl; "'0F'"]
  = (["abc123"; "0F"], 1).
Proof. by vm_compute. Qed.

Example path_join_samples :
  os.path_join "out" "abc" = "out/abc"
  ∧ os.path_join "out/" "abc" = "out/abc"
  ∧ os.path_join EmptyString "abc" = "abc"
  ∧ os.path_join "out" "/abc" = "/abc".
Proof. by vm_compute. Qed.

Example urlencode_sample :
  png_url "abc" demo_params "power-stance"
  = Some ("https://models.readyplayer.me/abc.png?size=1024&camera=portrait"
          +:+ "&background=0%2C0%2C0&expression=happy&pose=power-stance")
  ∧ png_url "abc" stray_params "power-stance" = None.
Proof. by vm_compute. Qed.

Example quote_plus_text_sample :
  urllib.quote_plus_text (text_of "0,0 0") = Some "0%2C0+0"
  ∧ urllib.quote_plus_text [233; 8364; 128512]%N
    = Some "%C3%A9%E2%82%AC%F0%9F%98%80"
  ∧ urllib.quote_plus_text (text_of "0,0" ++ stray_background) = None.
Proof. by vm_compute. Qed.

Example quote_plus_sample :
  urllib.quote_plus
    ("a b~_.-/" +:+ String (ascii_of_N 233) (String (ascii_of_N 160) "+&=*"))
  = "a+b~_.-%2F%C3%A9%C2%A0%2B%26%3D%2A".
Proof. by vm_compute. Qed.

(** ** Facts about [strip] and the pattern *)

Section StripFacts.

Variable p : ascii -> bool.

Lemma lstrip_app_all a s :
  all_chars p a = true → lstrip p (a +:+ s) = lstrip p s.
Proof.
  induction a as [|c a IH]; simpl; [done|].
  intros [Hc Ha]%andb_prop. rewrite Hc. auto.
Qed.

Lemma lstrip_all a : all_chars p a = true → lstrip p a = "".
Proof.
  induction a as [|c a IH]; simpl; [done|].
  intros [Hc Ha]%andb_prop. rewrite Hc. auto.
Qed.

Lemma lstrip_fix s : head_not p s → lstrip p s = s.
Proof. destruct s as [|c s]; simpl; [done|]. by intros ->. Qed.

Lemma rstrip_all a : all_chars p a = true → rstrip p a = "".
Proof.
  induction a as [|c a IH]; simpl; [done|].
  intros [Hc Ha]%andb_prop. by rewrite IH, Hc.
Qed.

Lemma rstrip_app_all s a :
  all_chars p a = true → rstrip p (s +:+ a) = rstrip p s.
Proof.
  intros Ha. induction s as [|c s IH]; simpl.
  - by apply rstrip_all.
  - by rewrite IH.
Qed.

Lemma rstrip_fix s : last_not p s → rstrip p s = s.
Proof.
  unfold last_not. induction s as [|c s IH]; [done|].
  intros H. destruct s as [|d s].
  - simpl. by rewrite (H c).
  - change (rstrip p (String c (String d s)))
      with (match rstrip p (String d s) with
            | "" => if p c then "" else String c ""
            | r => String c r
            end).
    rewrite IH; [done|]. intros x Hx. by apply H.
Qed.

(** What [strip] leaves of a core wrapped in characters of the class. *)
Lemma strip_core a m b :
  all_chars p a = true → all_chars p b = true →
  head_not p m → last_not p m →
  strip p (a +:+ m +:+ b) = m.
Proof.
  intros Ha Hb Hh Hl. unfold strip.
  rewrite lstrip_app_all by done.
  destruct m as [|c m].
  - simpl. by rewrite lstrip_all.
  - simpl in Hh. simpl lstrip. rewrite Hh.
    change (String c (m +:+ b)) with (String c m +:+ b).
    rewrite rstrip_app_all by done. by apply rstrip_fix.
Qed.

End StripFacts.

Lemma all_chars_app p a b :
  all_chars p (a +:+ b) = all_chars p a && all_chars p b.
Proof.
  induction a as [|c a IH]; simpl; [done|]. by rewrite IH, andb_assoc.
Qed.

Lemma all_chars_impl (p q : ascii → bool) s :
  (∀ c, p c = true → q c = true) →
  all_chars p s = true → all_chars q s = true.
Proof.
  intros Hpq. induction s as [|c s IH]; simpl; [done|].
  intros [Hc Hs]%andb_prop. by rewrite (Hpq c Hc), IH.
Qed.

Lemma none_chars_head p s : none_chars p s = true → head_not p s.
Proof.
  destruct s as [|c s]; simpl; [done|].
  intros [Hc _]%andb_prop. by apply negb_true_iff.
Qed.

Lemma none_chars_last p s : none_chars p s = true → last_not p s.
Proof.
  unfold last_not. induction s as [|c s IH]; [done|].
  intros [Hc Hs]%andb_prop x. destruct s as [|d s].
  - simpl. intros [= <-]. by apply negb_true_iff.
  - intros Hx. by apply IH.
Qed.

Lemma strip_untouched p s : none_chars p s = true → strip p s = s.
Proof.
  intros H. unfold strip.
  rewrite lstrip_fix by by apply none_chars_head.
  apply rstrip_fix. by apply none_chars_last.
Qed.

Lemma span_hex_app h r :
  all_chars is_hex h = true → head_not is_hex r →
  span_hex (h +:+ r) = (h, r).
Proof.
  intros Hh Hr. induction h as [|c h IH]; simpl.
  - destruct r as [|d r]; simpl in *; [done|]. by rewrite Hr.
  - apply andb_prop in Hh as [Hc Hh]. by rewrite Hc, IH.
Qed.

(** The character classes of the parser do not meet. *)
Lemma class_facts (c : ascii) :
  (is_hex c = true →
     is_space c = false ∧ is_char dquote c = false ∧ is_char squote c = false)
  ∧ (is_char dquote c = true → is_space c = false ∧ is_char squote c = false)
  ∧ (is_char squote c = true → is_space c = false ∧ is_char dquote c = false).
Proof. destruct c as [[] [] [] [] [] [] [] []]; vm_compute; intuition congruence. Qed.

Lemma hex_not_space c : is_hex c = true → is_space c = false.
Proof. intros H. by apply (class_facts c) in H as (? & ? & ?). Qed.

Lemma hex_not_dquote c : is_hex c = true → is_char dquote c = false.
Proof. intros H. by apply (class_facts c) in H as (? & ? & ?). Qed.

Lemma hex_not_squote c : is_hex c = true → is_char squote c = false.
Proof. intros H. by apply (class_facts c) in H as (? & ? & ?). Qed.

Lemma hex_no (q : ascii → bool) h :
  (∀ c, is_hex c = true → q c = false) →
  all_chars is_hex h = true → none_chars q h = true.
Proof.
  intros Hq. apply all_chars_impl. intros c Hc. by rewrite (Hq c Hc).
Qed.

Ltac class_step :=
  match goal with
  | H : all_chars ?p ?s = true |- all_chars _ ?s = true =>
      apply (all_chars_impl p); [|exact H];
      let c := fresh "c" in let Hc := fresh "Hc" in
      intros c Hc; apply negb_true_iff;
      destruct (class_facts c) as (? & ? & ?); intuition
  end.

Ltac none_chars_tac :=
  unfold none_chars; rewrite ?all_chars_app;
  repeat (apply andb_true_intro; split);
  first [class_step | reflexivity].

Lemma parse_id_wrapped ws1 d1 s1 h ext s2 d2 ws2 :
  all_chars is_space ws1 = true → all_chars is_space ws2 = true →
  all_chars (is_char dquote) d1 = true → all_chars (is_char dquote) d2 = true →
  all_chars (is_char squote) s1 = true → all_chars (is_char squote) s2 = true →
  all_chars is_hex h = true → nonempty h = true →
  ext = "" ∨ ext = ".glb" →
  parse_id (wrap ws1 d1 s1 (h +:+ ext) s2 d2 ws2) = Some h.
Proof.
  intros Hw1 Hw2 Hd1 Hd2 Hs1 Hs2 Hh Hne Hext.
  unfold parse_id, wrap.
  rewrite (strip_core is_space) by
    (try done; first [apply none_chars_head | apply none_chars_last];
     destruct Hext as [-> | ->]; none_chars_tac).
  rewrite (strip_core (is_char dquote)) by
    (try done; first [apply none_chars_head | apply none_chars_last];
     destruct Hext as [-> | ->]; none_chars_tac).
  rewrite (strip_core (is_char squote)) by
    (try done; first [apply none_chars_head | apply none_chars_last];
     destruct Hext as [-> | ->]; none_chars_tac).
  replace (nonempty (h +:+ ext)) with true by by destruct h.
  simpl negb. cbv iota. unfold ID_OR_GLB_RE_match.
  rewrite span_hex_app by (try done; by destruct Hext as [-> | ->]).
  rewrite Hne. by destruct Hext as [-> | ->].
Qed.

Lemma parse_id_blank line :
  all_chars is_space line = true →
  strip is_space line = "" ∧ parse_id line = None.
Proof.
  intros H. assert (Hs : strip is_space line = "").
  { unfold strip. by rewrite lstrip_all. }
  split; [done|]. unfold parse_id. by rewrite Hs.
Qed.

Lemma span_hex_hex s :
  ∀ g rest, span_hex s = (g, rest) → all_chars is_hex g = true ∧ s = g +:+ rest.
Proof.
  induction s as [|c s IH]; intros g rest H; simpl in H.
  - by injection H as <- <-.
  - destruct (is_hex c) eqn:Hc.
    + destruct (span_hex s) as [g' rest'] eqn:Hs. injection H as <- <-.
      destruct (IH _ _ eq_refl) as [Hg ->]. simpl. by rewrite Hc, Hg.
    + by injection H as <- <-.
Qed.

Lemma ID_OR_GLB_RE_match_hex s i :
  ID_OR_GLB_RE_match s = Some i →
  hex_id i ∧ ∃ rest, s = i +:+ rest ∧ rest ∈ tails.
Proof.
  unfold ID_OR_GLB_RE_match. destruct (span_hex s) as [g rest] eqn:Hs.
  destruct (span_hex_hex _ _ _ Hs) as [Hg ->].
  destruct (nonempty g) eqn:Hne; [|done]. case_bool_decide; [|done].
  intros [= <-]. split; [done|]. eauto.
Qed.

Lemma tails_head rest : rest ∈ tails → head_not is_hex rest.
Proof.
  unfold tails. intros H. apply list_elem_of_In in H. simpl in H.
  destruct H as [<-|[<-|[<-|[<-|[]]]]]; done.
Qed.

(** The pattern, read as a statement: a match is a non-empty run of
    hexadecimal digits followed by one of the four tails. *)
Lemma ID_OR_GLB_RE_match_iff s i :
  ID_OR_GLB_RE_match s = Some i
  ↔ hex_id i ∧ ∃ rest, s = i +:+ rest ∧ rest ∈ tails.
Proof.
  split; [apply ID_OR_GLB_RE_match_hex|].
  intros ([Hne Hh] & rest & -> & Hrest). unfold ID_OR_GLB_RE_match.
  rewrite span_hex_app by (try done; by apply tails_head).
  rewrite Hne. by rewrite bool_decide_eq_true_2.
Qed.

Lemma parse_id_iff line i :
  parse_id line = Some i
  ↔ hex_id i ∧ ∃ rest, stripped line = i +:+ rest ∧ rest ∈ tails.
Proof.
  unfold parse_id. fold (stripped line). rewrite <- ID_OR_GLB_RE_match_iff.
  destruct (nonempty (stripped line)) eqn:Hne; [done|]. simpl.
  split; [done|]. intros H. apply ID_OR_GLB_RE_match_hex in H as ([Hi _] & rest & Hs & _).
  rewrite Hs in Hne. by destruct i.
Qed.

Lemma parse_lines_snoc lines line :
  parse_lines (lines ++ [line]) = parse_step (parse_lines lines) line.
Proof. unfold parse_lines. by rewrite fold_left_app. Qed.

(** C7. The identifier parser maps the line [abc123.glb], bare or between
    quotes, to the identifier [abc123]: surrounding white space, quote
    characters and the suffix [.glb] are stripped, and the loop of [main]
    appends the identifier without counting a bad line.  A line of white
    space only gives no identifier and leaves both the list and the bad-line
    count as they are.  The line [not-hex!] gives no identifier, is not
    added to the list, and raises the bad-line count by one; so do [zz],
    [0x1f] and [abcg], and so does every line that is not blank and that,
    once stripped, is not a non-empty run of hexadecimal digits followed
    by nothing, by [.glb], or by either and one final newline: such a
    stripped line is exactly what [parse_id] gives an identifier for.  The
    loop of [main] is one such step per line, from the empty list and a
    count of zero. *)
Theorem C7_parser_lines :
  (∀ ids bad,
     parse_id "abc123.glb" = Some "abc123"
     ∧ parse_step (ids, bad) "abc123.glb" = (ids ++ ["abc123"], bad)
     ∧ parse_step (ids, bad) (String dquote "abc123.glb" +:+ String dquote nl)
       = (ids ++ ["abc123"], bad))
  ∧ (∀ ws1 d1 s1 h ext s2 d2 ws2 ids bad,
       all_chars is_space ws1 = true → all_chars is_space ws2 = true →
       all_chars (is_char dquote) d1 = true →
       all_chars (is_char dquote) d2 = true →
       all_chars (is_char squote) s1 = true →
       all_chars (is_char squote) s2 = true →
       all_chars is_hex h = true → nonempty h = true →
       ext = "" ∨ ext = ".glb" →
       parse_step (ids, bad) (wrap ws1 d1 s1 (h +:+ ext) s2 d2 ws2)
       = (ids ++ [h], bad))
  ∧ (∀ line ids bad,
       all_chars is_space line = true →
       parse_id line = None ∧ parse_step (ids, bad) line = (ids, bad))
  ∧ (∀ ids bad,
       parse_id "not-hex!" = None
       ∧ parse_step (ids, bad) "not-hex!" = (ids, bad + 1))
  ∧ (∀ ids bad,
       parse_id "zz" = None ∧ parse_id "0x1f" = None ∧ parse_id "abcg" = None
       ∧ parse_step (ids, bad) "zz" = (ids, bad + 1)
       ∧ parse_step (ids, bad) "0x1f" = (ids, bad + 1)
       ∧ parse_step (ids, bad) ("abcg" +:+ nl) = (ids, bad + 1))
  ∧ (∀ line i,
       parse_id line = Some i
       ↔ (nonempty i = true ∧ all_chars is_hex i = true)
         ∧ ∃ rest, stripped line = i +:+ rest ∧ rest ∈ tails)
  ∧ (∀ line ids bad,
       nonempty (strip is_space line) = true →
       (∀ h rest, nonempty h = true → all_chars is_hex h = true →
                  rest ∈ tails → stripped line ≠ h +:+ rest) →
       parse_id line = None ∧ parse_step (ids, bad) line = (ids, bad + 1))
  ∧ parse_lines [] = ([], 0)
  ∧ (∀ lines line,
       parse_lines (lines ++ [line]) = parse_step (parse_lines lines) line).
Proof.
  split; [|split; [|split; [|split; [|split; [|split; [|split; [|split]]]]]]].
  - intros ids bad. by repeat split.
  - intros ws1 d1 s1 h ext s2 d2 ws2 ids bad ? ? ? ? ? ? ? Hne ?.
    unfold parse_step. rewrite parse_id_wrapped by done. by rewrite Hne.
  - intros line ids bad H. destruct (parse_id_blank line H) as [Hs Hp].
    split; [done|]. unfold parse_step. by rewrite Hp, Hs.
  - intros ids bad. by split.
  - intros ids bad. by repeat split.
  - apply parse_id_iff.
  - intros line ids bad Hnb Hno.
    assert (Hid : parse_id line = None).
    { destruct (parse_id line) as [i|] eqn:Hp; [|done].
      apply parse_id_iff in Hp as ([Hne Hh] & rest & Hs & Hrest).
      by destruct (Hno i rest). }
    split; [done|]. unfold parse_step. by rewrite Hid, Hnb.
  - done.
  - apply parse_lines_snoc.
Qed.

Lemma C7_parser_lines_witness :
  parse_step (["0f"], 2)
    (wrap " " (String dquote "") "'" ("abc123" +:+ ".glb") "'" (String dquote "") nl)
  = (["0f"; "abc123"], 2)
  ∧ parse_step (["0f"], 2) (String "009" (" " +:+ nl)) = (["0f"], 2)
  ∧ parse_step (["0f"], 2) (" 'x1f' " +:+ nl) = (["0f"], 2 + 1).
Proof.
  destruct C7_parser_lines as (_ & Hwrap & Hblank & _ & _ & _ & Hbad & _).
  split; [|split].
  - apply (Hwrap " " (String dquote "") "'" "abc123" ".glb" "'"
             (String dquote "") nl ["0f"] 2); try reflexivity. by right.
  - apply (Hblank (String "009" (" " +:+ nl)) ["0f"] 2). reflexivity.
  - apply (Hbad (" 'x1f' " +:+ nl) ["0f"] 2); [reflexivity|].
    intros h rest Hne Hh Hrest Hs. vm_compute in Hs.
    destruct h as [|c h]; [done|]. injection Hs as <- _. by vm_compute in Hh.
Defined.

Lemma ext_char_none ext :
  all_chars ext_char ext = true →
  none_chars is_space ext = true
  ∧ none_chars (is_char dquote) ext = true
  ∧ none_chars (is_char squote) ext = true.
Proof.
  intros H. repeat split; revert H; apply all_chars_impl;
    intros c; unfold ext_char; intros [[? ?]%andb_prop ?]%andb_prop; done.
Qed.

(** C9. Only the literal lower-case suffix [.glb] is stripped: a line made
    of hexadecimal digits, a dot and any other extension (then white space,
    such as the end of the line) gives no identifier and is counted as a bad
    line; so are [abc123.png] and [ABC123.GLB]. *)
Theorem C9_only_glb_suffix :
  (∀ h ext ws ids bad,
     all_chars is_hex h = true → nonempty h = true →
     all_chars ext_char ext = true → ext ≠ "glb" →
     all_chars is_space ws = true →
     parse_id ((h +:+ "." +:+ ext) +:+ ws) = None
     ∧ parse_step (ids, bad) ((h +:+ "." +:+ ext) +:+ ws) = (ids, bad + 1))
  ∧ (∀ ids bad,
       parse_id "abc123.png" = None ∧ parse_id "ABC123.GLB" = None
       ∧ parse_step (ids, bad) "abc123.png" = (ids, bad + 1)
       ∧ parse_step (ids, bad) "ABC123.GLB" = (ids, bad + 1)).
Proof.
  split; [|by repeat split].
  intros h ext ws ids bad Hh Hne Hext Hglb Hws.
  destruct (ext_char_none ext Hext) as (Hsp & Hdq & Hsq).
  set (m := h +:+ "." +:+ ext).
  assert (Hm : ∀ q, (∀ c, is_hex c = true → q c = false) → q "."%char = false →
                    none_chars q ext = true → none_chars q m = true).
  { intros q Hq Hdot He. pose proof (hex_no q h Hq Hh) as Hh'.
    unfold none_chars, m in *. rewrite !all_chars_app, Hh'. simpl.
    by rewrite Hdot, He. }
  assert (Hstrip : strip is_space (m +:+ ws) = m).
  { apply (strip_core is_space "" m ws); try done.
    - apply none_chars_head, Hm; try done. apply hex_not_space.
    - apply none_chars_last, Hm; try done. apply hex_not_space. }
  assert (Hm_ne : nonempty m = true) by by (unfold m; destruct h).
  assert (Hid : parse_id (m +:+ ws) = None).
  { unfold parse_id. rewrite Hstrip.
    rewrite (strip_untouched (is_char dquote)) by
      (apply Hm; try done; apply hex_not_dquote).
    rewrite (strip_untouched (is_char squote)) by
      (apply Hm; try done; apply hex_not_squote).
    rewrite Hm_ne. simpl. unfold ID_OR_GLB_RE_match, m.
    rewrite span_hex_app by done. rewrite Hne.
    rewrite bool_decide_eq_false_2; [done|].
    intros Hin. apply list_elem_of_In in Hin. simpl in Hin.
    destruct Hin as [H|[H|[H|[H|[]]]]]; try discriminate.
    - injection H as H. change ("" +:+ ext) with ext in H. by subst ext.
    - injection H as H. change ("" +:+ ext) with ext in H. subst ext.
      discriminate Hsp. }
  split; [done|]. unfold parse_step. by rewrite Hid, Hstrip, Hm_ne.
Qed.

Lemma C9_only_glb_suffix_witness :
  parse_id (("0Fa9" +:+ "." +:+ "Glb") +:+ nl) = None
  ∧ parse_step (["c0"], 0) (("0Fa9" +:+ "." +:+ "Glb") +:+ nl) = (["c0"], 0 + 1).
Proof.
  destruct C9_only_glb_suffix as [H _].
  apply (H "0Fa9" "Glb" nl ["c0"] 0); try reflexivity. discriminate.
Defined.

(** ** The aggregator *)

Lemma count_on_comm acc r1 r2 :
  count_on (count_on acc r1) r2 = count_on (count_on acc r2) r1.
Proof.
  destruct acc as [s|]; [|done]. unfold count_on, count. simpl.
  destruct (glb r1) as [g1|], (glb r2) as [g2|]; simpl; try done.
  destruct (startswith "FAILED" g1), (startswith "FAILED" g2); simpl;
    f_equal; f_equal; lia.
Qed.

Lemma foldl_count_on_perm rs rs' :
  rs ≡ₚ rs' → ∀ acc, foldl count_on acc rs = foldl count_on acc rs'.
Proof.
  induction 1 as [|r l l' _ IH|r1 r2 l|l1 l2 l3 _ IH1 _ IH2]; intros acc; simpl.
  - done.
  - apply IH.
  - by rewrite count_on_comm.
  - by rewrite IH1.
Qed.

Lemma foldl_count_on_None rs : foldl count_on None rs = None.
Proof. induction rs; simpl; auto. Qed.

(** The loop of [main] computes the fold of [count], whatever it prints. *)
Lemma aggregate_fold rs s w :
  result_of (aggregate (Done <$> rs) s w) = foldl count_on (Some s) rs.
Proof.
  revert s w. induction rs as [|r rs IH]; intros s w; simpl; [done|].
  unfold count. destruct (glb r) as [g|] eqn:Hg; simpl.
  - unfold mbind at 1, M_bind, print, log. simpl. apply IH.
  - by rewrite foldl_count_on_None.
Qed.

Lemma foldl_count_on_Some rs :
  ∀ s, (∀ r, r ∈ rs → is_Some (glb r)) →
       is_Some (foldl count_on (Some s) rs).
Proof.
  induction rs as [|r rs IH]; intros s Hg; simpl; [eauto|].
  destruct (Hg r) as [g Hgr]; [by left|]. unfold count. rewrite Hgr. simpl.
  apply IH. intros r' Hr'. apply Hg. by right.
Qed.

(** C10. The totals and the exit status do not depend on the order in which
    the results complete: for two arrangements of the same results, started
    from any two states of the world, the loop of [main] ends the same way,
    with equal counters (model successes and failures, image successes and
    failures) and an equal exit code; and it does end with totals when
    every result carries its model outcome, as the results of the avatar
    task do. *)
Theorem C10_order_invariance (rs rs' : list AvatarResult) (w w' : world) :
  rs ≡ₚ rs' →
  result_of (aggregate (Done <$> rs) Summary.zero w)
  = result_of (aggregate (Done <$> rs') Summary.zero w')
  ∧ exit_code <$> result_of (aggregate (Done <$> rs) Summary.zero w)
    = exit_code <$> result_of (aggregate (Done <$> rs') Summary.zero w')
  ∧ totals rs = totals rs'
  ∧ ((∀ r, r ∈ rs → is_Some (glb r)) →
     is_Some (result_of (aggregate (Done <$> rs) Summary.zero w))).
Proof.
  intros Hp.
  pose proof (foldl_count_on_perm rs rs' Hp (Some Summary.zero)) as E.
  rewrite !aggregate_fold. unfold totals. rewrite E.
  repeat split. intros Hg. rewrite <- E. by apply foldl_count_on_Some.
Qed.

Lemma C10_order_invariance_witness :
  let a := mkResult "0a" (Some "downloaded") 3 1 in
  let b := mkResult "0b" (Some "FAILED (http_404)") 0 0 in
  let c := mkResult "0c" (Some "exists") 4 0 in
  result_of (aggregate (Done <$> [a; b; c]) Summary.zero w_empty)
  = Some (Summary.mk 2 1 7 1)
  ∧ result_of (aggregate (Done <$> [c; a; b]) Summary.zero w_empty)
    = Some (Summary.mk 2 1 7 1).
Proof.
  intros a b c.
  destruct (C10_order_invariance [a; b; c] [c; a; b] w_empty w_empty)
    as (H & _ & _).
  - change [c; a; b] with ([c] ++ [a; b]). change [a; b; c] with ([a; b] ++ [c]).
    apply Permutation_app_comm.
  - split; [reflexivity|]. rewrite <- H. reflexivity.
Defined.

(** ** The resource fetcher *)

Lemma bind_run {A B} (c : M A) (k : A → M B) (w : world) :
  (c ≫= k) w = match c w with
               | Return a w' => k a w'
               | Raise e w' => Raise e w'
               end.
Proof. reflexivity. Qed.

Lemma length_append (a b : string) :
  String.length (a +:+ b) = (String.length a + String.length b)%nat.
Proof. induction a as [|c a IH]; simpl; [done|]. by rewrite IH. Qed.

Lemma tmp_of_ne out_path : tmp_of out_path ≠ out_path.
Proof.
  unfold tmp_of. intros H. apply (f_equal String.length) in H.
  rewrite length_append in H. simpl in H. lia.
Qed.

Lemma written_ok E tmp cs :
  ∀ d d', written E tmp d cs = (d', None) → d' = d ++ concat cs.
Proof.
  induction cs as [|c cs IH]; intros d d' H; simpl in *.
  - injection H as <-. by rewrite app_nil_r.
  - destruct c as [|b c]; simpl in *; [by apply IH|].
    destruct (os_fault E _); [done|].
    rewrite (IH _ _ H). by rewrite <- app_assoc.
Qed.

Lemma write_chunks_run E tmp cs :
  ∀ f tr d,
    f !! tmp = Some (File d) →
    write_chunks E tmp cs (World f tr)
    = match written E tmp d cs with
      | (d', None) => Return tt (World (<[tmp := File d']> f) tr)
      | (d', Some k) => Raise k (World (<[tmp := File d']> f) tr)
      end.
Proof.
  induction cs as [|c cs IH]; intros f tr d Hd; simpl.
  - by rewrite insert_id.
  - rewrite bind_run. destruct c as [|b c]; simpl.
    + unfold mret, M_ret. by apply IH.
    + unfold os.write. rewrite bind_run. simpl. rewrite Hd.
      destruct (os_fault E (SysWrite tmp d)) as [k|]; simpl.
      * by rewrite insert_id.
      * rewrite (IH _ _ (d ++ b :: c)) by by rewrite lookup_insert_eq.
        destruct (written E tmp (d ++ b :: c) cs) as [d' [k|]];
          by rewrite insert_insert_eq.
Qed.

(** The [except] clause: it removes what lies at the temporary path, or
    raises what [cleanup_error] says. *)
Lemma fetch_cleanup_run E tmp e f tr :
  fetch_cleanup E tmp e (World f tr)
  = match cleanup_error E f tmp with
    | None => Return (false, "error_" +:+ e) (World (delete tmp f) tr)
    | Some e' => Raise e' (World f tr)
    end.
Proof.
  unfold fetch_cleanup, cleanup_error. rewrite bind_run.
  unfold os.path_exists. rewrite bind_run. simpl.
  destruct (f !! tmp) as [n|] eqn:Hf.
  - rewrite bool_decide_eq_true_2 by eauto. simpl.
    rewrite bind_run. unfold os.remove.
    destruct (os_fault E (SysRemove tmp)) as [e'|]; [done|].
    rewrite bind_run. simpl. rewrite Hf. by destruct n.
  - rewrite bool_decide_eq_false_2 by (by intros [? ?]). simpl.
    by rewrite delete_id.
Qed.

Lemma already_there_run out_path f tr :
  already_there out_path (World f tr)
  = Return (present f out_path) (World f tr).
Proof.
  unfold already_there, present, os.path_exists, os.path_getsize. rewrite !bind_run. simpl.
  destruct (f !! out_path) as [n|] eqn:Hf.
  - rewrite bool_decide_eq_true_2 by eauto. simpl. rewrite !bind_run. simpl.
    by rewrite Hf.
  - by rewrite bool_decide_eq_false_2 by (by intros [? ?]).
Qed.

Lemma is_dir_insert_file f p q d :
  is_dir (<[p := File d]> f) q = if decide (p = q) then false else is_dir f q.
Proof. unfold is_dir. rewrite lookup_insert. by case_decide. Qed.

(** What the body of the [try] leaves to the [except] clause differs from
    the file system of the call at the temporary path at most, where it
    holds no new directory. *)
Lemma try_raises_fs E url out_path timeout w k f' :
  try_raises E url out_path timeout w k f' →
  f' = fs w ∨ ∃ d, f' = <[tmp_of out_path := File d]> (fs w).
Proof. destruct 1; eauto. Qed.

Lemma download_file_cases E url out_path timeout w :
  fetch_ends E url out_path timeout w (download_file E url out_path timeout w).
Proof.
  destruct w as [f tr]. unfold download_file.
  rewrite bind_run. simpl. rewrite bind_run, already_there_run.
  destruct (present f out_path) eqn:Hpres; [by apply FE_exists|].
  pose proof (tmp_of_ne out_path) as Hne.
  set (tmp := tmp_of out_path) in *.
  set (tr1 := tr ++ [EvFetch url out_path]).
  assert (Htr : tr1 ++ [EvGet url] = tr ++ [EvFetch url out_path; EvGet url])
    by (unfold tr1; by rewrite <- app_assoc).
  (* the body raised [k] over the file system [f'] *)
  assert (Hfail : ∀ k f',
    try_raises E url out_path timeout (World f tr) k f' →
    fetch_ends E url out_path timeout (World f tr)
      (fetch_cleanup E tmp k (World f' (tr1 ++ [EvGet url])))).
  { intros k f' Hk. rewrite fetch_cleanup_run, Htr.
    destruct (cleanup_error E f' tmp) as [e|] eqn:Hcl.
    - by eapply FE_raise.
    - replace (delete tmp f') with (delete tmp f); [by eapply FE_error|].
      destruct (try_raises_fs _ _ _ _ _ _ _ Hk) as [->|[d ->]]; [done|].
      simpl. by rewrite delete_insert_eq. }
  unfold try_except, fetch_body. rewrite bind_run. unfold session_get. simpl.
  fold tr1.
  destruct (net E tr1 url timeout) as [k|st cs ab] eqn:Hnet.
  { apply (Hfail k f). by apply TR_unreachable. }
  destruct (decide (st = 200)) as [->|Hst].
  2:{ replace (st =? 200) with false by (symmetry; by apply Z.eqb_neq).
      simpl. rewrite Htr. by eapply FE_http. }
  simpl. rewrite bind_run. unfold os.open_wb.
  destruct (os_fault E (SysOpen tmp)) as [k|] eqn:Hopen.
  { apply (Hfail k f). by eapply TR_open. }
  rewrite bind_run. simpl.
  destruct (is_dir f tmp) eqn:Hdir.
  { pose proof Hdir as Hdir'. unfold is_dir in Hdir'.
    destruct (f !! tmp) as [[d|sz]|] eqn:Hf; try done.
    apply (Hfail _ f). by eapply TR_open_dir. }
  set (f1 := <[tmp := File []]> f).
  assert (Hopened : match f !! tmp with
                    | Some (Dir _) => raise "IsADirectoryError"
                    | _ => put_fs (<[tmp:=File []]> f)
                    end (World f (tr1 ++ [EvGet url]))
                    = Return tt (World f1 (tr1 ++ [EvGet url]))).
  { unfold is_dir in Hdir. by destruct (f !! tmp) as [[d|sz]|]. }
  unfold f1 in Hopened |- *. rewrite Hopened. fold f1.
  rewrite bind_run, (write_chunks_run E tmp cs f1 _ [])
    by (unfold f1; by rewrite lookup_insert_eq).
  unfold f1. destruct (written E tmp [] cs) as [body [k|]] eqn:Hwr;
    rewrite insert_insert_eq.
  { apply (Hfail k). by eapply TR_write. }
  set (f2 := <[tmp := File body]> f).
  rewrite bind_run. destruct ab as [k|]; simpl.
  { apply (Hfail k). by eapply TR_abort. }
  rewrite bind_run. unfold os.replace.
  destruct (os_fault E (SysReplace tmp out_path)) as [k|] eqn:Hrep.
  { apply (Hfail k). by eapply TR_replace. }
  rewrite bind_run. simpl.
  replace (f2 !! tmp) with (Some (File body))
    by (unfold f2; by rewrite lookup_insert_eq).
  replace (f2 !! out_path) with (f !! out_path)
    by (unfold f2; by rewrite lookup_insert_ne).
  pose proof (written_ok _ _ _ _ _ Hwr) as Hbody. simpl in Hbody.
  assert (Hdel2 : delete tmp f2 = delete tmp f)
    by (unfold f2; by rewrite delete_insert_eq).
  destruct (is_dir f out_path) eqn:Hout; pose proof Hout as Hout';
    unfold is_dir in Hout'; destruct (f !! out_path) as [[d|sz]|] eqn:Hf;
    try done; simpl.
  - apply (Hfail _ f2). by eapply TR_replace_dir.
  - rewrite Hdel2, Htr. subst body. by apply FE_downloaded.
  - rewrite Hdel2, Htr. subst body. by apply FE_downloaded.
Qed.

Lemma download_file_present E url out_path timeout w :
  present (fs w) out_path = true →
  download_file E url out_path timeout w
  = Return (true, "exists") (World (fs w) (trace w ++ [EvFetch url out_path])).
Proof.
  intros Hp. destruct (download_file_cases E url out_path timeout w);
    try congruence; done.
Qed.

(** The trace only grows: by the mark of the attempt, and by one GET at
    most. *)
Lemma download_file_trace E url out_path timeout w :
  let w' := final_world (download_file E url out_path timeout w) in
  trace w' = trace w ++ [EvFetch url out_path]
  ∨ trace w' = trace w ++ [EvFetch url out_path; EvGet url].
Proof.
  destruct (download_file_cases E url out_path timeout w); simpl; auto.
Qed.

(** A fetch makes no directory. *)
Lemma download_file_no_new_dir E url out_path timeout w p :
  is_dir (fs (final_world (download_file E url out_path timeout w))) p = true →
  is_dir (fs w) p = true.
Proof.
  destruct (download_file_cases E url out_path timeout w)
    as [| | | |k f' e _ Hk _]; simpl; try done.
  - unfold is_dir. rewrite lookup_insert, lookup_delete.
    by repeat case_decide.
  - unfold is_dir. rewrite lookup_delete. by case_decide.
  - destruct (try_raises_fs _ _ _ _ _ _ _ Hk) as [->|[d ->]]; [done|].
    rewrite is_dir_insert_file. by case_decide.
Qed.

(** A fetch that does not succeed leaves its destination as it was. *)
Lemma download_file_destination E url out_path timeout w :
  let o := download_file E url out_path timeout w in
  (∀ reason, result_of o ≠ Some (true, reason)) →
  fs (final_world o) !! out_path = fs w !! out_path.
Proof.
  pose proof (tmp_of_ne out_path) as Hne.
  destruct (download_file_cases E url out_path timeout w)
    as [| | | |k f' e _ Hk _]; simpl; intros Hno; try done.
  - by destruct (Hno "downloaded").
  - by rewrite lookup_delete_ne.
  - destruct (try_raises_fs _ _ _ _ _ _ _ Hk) as [->|[d ->]]; [done|].
    by rewrite lookup_insert_ne.
Qed.

(** A fetch raises only from its [except] clause: by the fault of
    [os.remove], or because the temporary path is a directory. *)
Lemma download_file_raises E url out_path timeout w e w' :
  download_file E url out_path timeout w = Raise e w' →
  cleanup_error E (fs w') (tmp_of out_path) = Some e
  ∧ (os_fault E (SysRemove (tmp_of out_path)) = Some e
     ∨ e = "IsADirectoryError" ∧ is_dir (fs w') (tmp_of out_path) = true).
Proof.
  intros H. pose proof (download_file_cases E url out_path timeout w) as Hc.
  rewrite H in Hc. inversion Hc as [| | | |k f' e' _ Hk Hcl]; subst.
  split; [done|]. unfold cleanup_error, is_dir in *. simpl.
  destruct (f' !! tmp_of out_path) as [[d|sz]|]; try done;
    destruct (os_fault E _); naive_solver.
Qed.

Lemma download_file_returns E url out_path timeout w :
  cleanable E (fs w) (tmp_of out_path) →
  ∃ v w', download_file E url out_path timeout w = Return v w'.
Proof.
  intros [Hrm Hd]. destruct (download_file_cases E url out_path timeout w)
    as [| | | |k f' e _ Hk Hcl]; eauto.
  exfalso. unfold cleanup_error in Hcl. rewrite Hrm in Hcl.
  destruct (try_raises_fs _ _ _ _ _ _ _ Hk) as [->|[d ->]].
  - unfold is_dir in Hd. by destruct (fs w !! _) as [[]|].
  - by rewrite lookup_insert_eq in Hcl.
Qed.

Lemma cleanable_after E url out_path timeout w tmp :
  cleanable E (fs w) tmp →
  cleanable E (fs (final_world (download_file E url out_path timeout w))) tmp.
Proof.
  intros [Hrm Hd]. split; [done|]. apply not_true_is_false. intros Hdir.
  apply download_file_no_new_dir in Hdir. congruence.
Qed.

(** The body of the [try] raises in one way at most. *)
Lemma try_raises_functional E url out_path timeout w k f' k2 f2 :
  try_raises E url out_path timeout w k f' →
  try_raises E url out_path timeout w k2 f2 →
  k = k2 ∧ f' = f2.
Proof. destruct 1; destruct 1; split; congruence. Qed.

(** When the body of the [try] raises, the call ends as the clean-up
    decides: it returns the failure, or the clean-up raises and what the
    body wrote stays at the temporary path. *)
Lemma download_file_try_raised E url out_path timeout w k f' :
  present (fs w) out_path = false →
  try_raises E url out_path timeout w k f' →
  download_file E url out_path timeout w
  = match cleanup_error E f' (tmp_of out_path) with
    | None =>
        Return (false, "error_" +:+ k)
          (World (delete (tmp_of out_path) (fs w))
             (trace w ++ [EvFetch url out_path; EvGet url]))
    | Some e =>
        Raise e (World f' (trace w ++ [EvFetch url out_path; EvGet url]))
    end.
Proof.
  intros Hp Hk.
  destruct (download_file_cases E url out_path timeout w)
    as [Hp'|st cs ab _ Hnet Hst|cs _ Hnet Hopen Hdir Hwr Hrep Hout
        |k2 f2 _ Hk2 Hcl|k2 f2 e _ Hk2 Hcl].
  - congruence.
  - destruct Hk; congruence.
  - destruct Hk; congruence.
  - destruct (try_raises_functional _ _ _ _ _ _ _ _ _ Hk Hk2) as [-> ->].
    by rewrite Hcl.
  - destruct (try_raises_functional _ _ _ _ _ _ _ _ _ Hk Hk2) as [-> ->].
    by rewrite Hcl.
Qed.

(** A status other than 200 ends the call before any file is opened. *)
Lemma download_file_http E url out_path timeout w st cs ab :
  present (fs w) out_path = false →
  net E (trace w ++ [EvFetch url out_path]) url timeout = Response st cs ab →
  st ≠ 200 →
  download_file E url out_path timeout w
  = Return (false, "http_" +:+ pretty st)
      (World (fs w) (trace w ++ [EvFetch url out_path; EvGet url])).
Proof.
  intros Hp Hnet Hst.
  destruct (download_file_cases E url out_path timeout w)
    as [Hp'|st' cs' ab' _ Hnet' Hst'|cs' _ Hnet' _ _ _ _ _
        |k2 f2 _ Hk2 Hcl|k2 f2 e _ Hk2 Hcl].
  - congruence.
  - congruence.
  - congruence.
  - destruct Hk2; congruence.
  - destruct Hk2; congruence.
Qed.

(** ** The avatar task *)

Lemma pose_loop_nil E avatar_id out_root base_params timeout r w :
  pose_loop E avatar_id out_root base_params timeout [] r w = Return r w.
Proof. reflexivity. Qed.

Lemma pose_loop_cons E avatar_id out_root base_params timeout pose rest r w :
  pose_loop E avatar_id out_root base_params timeout (pose :: rest) r w
  = match png_url avatar_id base_params pose with
    | None => Raise "UnicodeEncodeError" w
    | Some url =>
        match download_file E url (png_path out_root avatar_id pose)
                timeout w with
        | Return (ok, _) w' =>
            pose_loop E avatar_id out_root base_params timeout rest
              (bump ok r) w'
        | Raise e w' => Raise e w'
        end
    end.
Proof.
  cbn [pose_loop]. rewrite bind_run. unfold pose_step. rewrite bind_run.
  destruct (png_url avatar_id base_params pose) as [url|]; [|done].
  simpl. rewrite bind_run.
  destruct (download_file _ _ _ _ _) as [[[] reason] w'|e w']; reflexivity.
Qed.

Lemma process_avatar_run E avatar_id out_root base_params timeout w :
  process_avatar E avatar_id out_root base_params timeout w
  = match safe_mkdir E (os.path_join out_root avatar_id) w with
    | Raise e w' => Raise e w'
    | Return _ w1 =>
        match download_file E (glb_url avatar_id)
                (glb_path out_root avatar_id) timeout w1 with
        | Raise e w' => Raise e w'
        | Return (ok, reason) w2 =>
            if ok
            then pose_loop E avatar_id out_root base_params timeout POSES
                   (mkResult avatar_id (Some reason) 0 0) w2
            else Return (mkResult avatar_id
                           (Some ("FAILED (" +:+ reason +:+ ")")) 0 0) w2
        end
    end.
Proof.
  unfold process_avatar. rewrite bind_run.
  destruct (safe_mkdir _ _ _) as [[] w1|e w1]; [|done].
  rewrite bind_run. fold (glb_url avatar_id) (glb_path out_root avatar_id).
  destruct (download_file _ _ _ _ _) as [[[] reason] w2|e w2]; reflexivity.
Qed.

Lemma safe_mkdir_cases E path w :
  match safe_mkdir E path w with
  | Return _ w' =>
      trace w' = trace w ∧ is_dir (fs w') path = true
      ∧ (is_dir (fs w) path = true → w' = w)
      ∧ (∀ p, p ≠ path → fs w' !! p = fs w !! p)
  | Raise e w' =>
      w' = w
      ∧ (is_file (fs w) path = true ∧ e = "FileExistsError"
         ∨ fs w !! path = None ∧ os_fault E (SysMkdir path) = Some e)
  end.
Proof.
  destruct w as [f tr]. unfold safe_mkdir, os.makedirs, is_dir, is_file.
  rewrite bind_run. simpl.
  destruct (f !! path) as [[d|sz]|] eqn:Hf; simpl; rewrite ?Hf; auto.
  destruct (os_fault E (SysMkdir path)) as [k|]; simpl; auto.
  rewrite lookup_insert_eq. repeat split; try done.
  intros p Hp. by rewrite lookup_insert_ne.
Qed.

(** *** Encoding the query *)

(** A code point of the Latin-1 range has its UTF-8 bytes. *)
Lemma utf8_latin (c : ascii) : is_Some (urllib.utf8 (code c)).
Proof.
  unfold urllib.utf8, code. pose proof (N_ascii_bounded c) as Hc.
  destruct (N_of_ascii c <? 128)%N; [by eexists|].
  replace (N_of_ascii c <? 2048)%N with true; [by eexists|].
  symmetry. apply N.ltb_lt. lia.
Qed.

Lemma encode_text_of (s : string) : is_Some (urllib.encode (text_of s)).
Proof.
  unfold text_of. induction s as [|c s [bs IH]]; [by eexists|].
  cbn [list_ascii_of_string fmap list_fmap urllib.encode].
  destruct (utf8_latin c) as [b ->]. simpl.
  change (list_fmap ascii N code (list_ascii_of_string s))
    with (code <$> list_ascii_of_string s).
  rewrite IH. by eexists.
Qed.

Lemma quote_bytes_app bs bs' :
  urllib.quote_bytes (bs ++ bs')
  = urllib.quote_bytes bs +:+ urllib.quote_bytes bs'.
Proof.
  induction bs as [|b bs IH]; [done|].
  cbn [app urllib.quote_bytes]. rewrite IH.
  generalize (urllib.quote_byte b). intros s.
  induction s as [|c s IHs]; [done|].
  change (String c (s +:+ urllib.quote_bytes bs +:+ urllib.quote_bytes bs')
          = String c ((s +:+ urllib.quote_bytes bs) +:+ urllib.quote_bytes bs')).
  by rewrite IHs.
Qed.

Lemma quote_char_utf8 (c : ascii) :
  urllib.quote_bytes <$> urllib.utf8 (code c) = Some (urllib.quote_char c).
Proof. destruct c as [[] [] [] [] [] [] [] []]; vm_compute; reflexivity. Qed.

(** On a string of the Latin-1 range the encoding does not fail, and the
    two readings of [quote_plus] agree. *)
Lemma quote_plus_text_of (s : string) :
  urllib.quote_plus_text (text_of s) = Some (urllib.quote_plus s).
Proof.
  unfold urllib.quote_plus_text, text_of.
  induction s as [|c s IH]; [done|].
  cbn [list_ascii_of_string fmap list_fmap urllib.encode urllib.quote_plus].
  pose proof (quote_char_utf8 c) as Hc.
  destruct (urllib.utf8 (code c)) as [bs|]; [|done].
  injection Hc as <-.
  change (list_fmap ascii N code (list_ascii_of_string s))
    with (code <$> list_ascii_of_string s).
  destruct (urllib.encode (code <$> list_ascii_of_string s)) as [bs'|];
    [|done].
  injection IH as <-. cbn [mbind option_bind fmap option_fmap option_map].
  by rewrite quote_bytes_app.
Qed.

Lemma urlencode_is_Some params :
  is_Some (urllib.urlencode params)
  ↔ Forall (λ kv : string * text, is_Some (urllib.encode kv.2)) params.
Proof.
  unfold urllib.urlencode. rewrite fmap_is_Some, mapM_is_Some.
  apply Forall_proper; [|done]. intros [k v]. simpl.
  unfold urllib.quote_plus_text. destruct (urllib.encode v); simpl.
  - split; by eexists.
  - split; by intros [? ?].
Qed.

Lemma Forall_dict_set (P : string * text → Prop) d k v v' :
  (∀ k', P (k', v) ↔ P (k', v')) →
  Forall P (dict_set d k v) ↔ Forall P (dict_set d k v').
Proof.
  intros Hv. induction d as [|[k1 v1] d IH]; simpl.
  - rewrite !Forall_singleton. apply Hv.
  - destruct (String.eqb k1 k); rewrite !Forall_cons; [|by rewrite IH].
    by rewrite Hv.
Qed.

(** Whether the URL of an image can be rendered does not depend on the
    pose, nor on the identifier. *)
Lemma png_url_is_Some avatar_id base_params pose :
  is_Some (png_url avatar_id base_params pose) ↔ encodable base_params.
Proof.
  unfold png_url, render_url, encodable.
  assert (Hany : ∀ p q : string,
            is_Some (urllib.urlencode (dict_set base_params "pose" (text_of p)))
            → is_Some (urllib.urlencode
                         (dict_set base_params "pose" (text_of q)))).
  { intros p q. rewrite !urlencode_is_Some.
    apply Forall_dict_set. intros k'. simpl.
    split; intros _; apply encode_text_of. }
  split.
  - intros [url Hu] q. apply (Hany pose).
    destruct (urllib.urlencode _); [by eexists|done].
  - intros He. destruct (He pose) as [q ->]. by eexists.
Qed.

Lemma png_url_None avatar_id base_params pose :
  png_url avatar_id base_params pose = None ↔ ¬ encodable base_params.
Proof.
  rewrite <- (png_url_is_Some avatar_id base_params pose).
  rewrite eq_None_not_Some. done.
Qed.

(** Values that can all be encoded make the parameters encodable. *)
Lemma encodable_values base_params :
  Forall (λ kv : string * text, is_Some (urllib.encode kv.2)) base_params →
  encodable base_params.
Proof.
  intros H pose. apply urlencode_is_Some.
  induction H as [|[k1 v1] d Hkv Hd IH]; simpl.
  - apply Forall_singleton. apply encode_text_of.
  - destruct (String.eqb k1 "pose"); apply Forall_cons; split; try done.
    apply encode_text_of.
Qed.

Lemma encodable_base_params_of (a : Args.t) :
  encodable (base_params_of a) ↔ is_Some (urllib.encode (Args.background a)).
Proof.
  split.
  - intros H. specialize (H ""). apply urlencode_is_Some in H.
    assert (Hd : dict_set (base_params_of a) "pose" (text_of "")
                 = base_params_of a ++ [("pose", text_of "")]) by reflexivity.
    rewrite Hd in H. apply Forall_app in H as [H _].
    unfold base_params_of in H. rewrite !Forall_cons in H.
    by destruct H as (_ & _ & H & _).
  - intros H. apply encodable_values. unfold base_params_of.
    repeat (apply Forall_cons; split); try apply encode_text_of; done.
Qed.


(** *** A task over files that are there *)

Lemma pose_loop_present E avatar_id out_root base_params timeout poses :
  encodable base_params →
  ∀ r w,
    (∀ pose, pose ∈ poses →
       present (fs w) (png_path out_root avatar_id pose) = true) →
    ∃ evs,
      pose_loop E avatar_id out_root base_params timeout poses r w
      = Return (mkResult (avatar r) (glb r)
                  (png_ok r + Z.of_nat (length poses)) (png_fail r))
          (World (fs w) (trace w ++ evs))
      ∧ get_urls evs = []
      ∧ fetch_paths evs = map (png_path out_root avatar_id) poses.
Proof.
  intros Henc.
  induction poses as [|pose rest IH]; intros r [f tr] Hp; simpl in Hp.
  - exists []. rewrite pose_loop_nil, app_nil_r. simpl.
    rewrite Z.add_0_r. by destruct r.
  - rewrite pose_loop_cons.
    destruct (proj2 (png_url_is_Some avatar_id base_params pose) Henc)
      as [url ->].
    rewrite download_file_present by (apply Hp; by left).
    destruct (IH (bump true r)
                (World f (tr ++ [EvFetch url
                                   (png_path out_root avatar_id pose)])))
      as (evs & Hrun & Hget & Hfetch).
    { intros p' Hp'. apply Hp. by right. }
    simpl fs in *. simpl trace in *.
    exists (EvFetch url (png_path out_root avatar_id pose) :: evs).
    split; [|by simpl; rewrite Hget, Hfetch].
    rewrite Hrun, <- app_assoc. simpl. do 2 f_equal. lia.
Qed.

(** C1. A fetch whose destination exists with a non-zero size returns
    [(True, "exists")] at once: it sends no request and leaves the file
    system as it is.  So an avatar task run over a directory that already
    holds its five files, all non-empty, with parameters that can be
    URL-encoded, reports the model as existing and four images as
    successes, sends no GET request and leaves the file system as it
    is. *)
Theorem C1_present_skips_fetch :
  (∀ E url out_path timeout w,
     present (fs w) out_path = true →
     ∃ evs,
       download_file E url out_path timeout w
       = Return (true, "exists") (World (fs w) (trace w ++ evs))
       ∧ get_urls evs = [])
  ∧ (∀ E avatar_id out_root base_params timeout w,
       encodable base_params →
       is_dir (fs w) (os.path_join out_root avatar_id) = true →
       present (fs w) (glb_path out_root avatar_id) = true →
       (∀ pose, pose ∈ POSES →
          present (fs w) (png_path out_root avatar_id pose) = true) →
       ∃ evs,
         process_avatar E avatar_id out_root base_params timeout w
         = Return (mkResult avatar_id (Some "exists") 4 0)
             (World (fs w) (trace w ++ evs))
         ∧ get_urls evs = []
         ∧ fetch_paths evs
           = glb_path out_root avatar_id
             :: map (png_path out_root avatar_id) POSES).
Proof.
  split.
  - intros E url out_path timeout w Hp. eexists. split.
    + by apply download_file_present.
    + done.
  - intros E avatar_id out_root base_params timeout w Henc Hdir Hglb Hpng.
    rewrite process_avatar_run.
    pose proof (safe_mkdir_cases E (os.path_join out_root avatar_id) w) as Hmk.
    destruct (safe_mkdir _ _ _) as [[] w1|e w1].
    2:{ unfold is_dir, is_file in *. destruct Hmk as (_ & [[Hf _]|[Hf _]]);
        destruct (fs w !! _) as [[]|]; done. }
    destruct Hmk as (_ & _ & Hsame & _). rewrite (Hsame Hdir).
    rewrite download_file_present by done.
    destruct (pose_loop_present E avatar_id out_root base_params timeout POSES
                Henc (mkResult avatar_id (Some "exists") 0 0)
                (World (fs w) (trace w ++ [EvFetch (glb_url avatar_id)
                                             (glb_path out_root avatar_id)])))
      as (evs & Hrun & Hget & Hfetch); [done|].
    eexists (_ :: evs). rewrite Hrun. simpl. rewrite <- app_assoc. simpl.
    by rewrite Hget, Hfetch.
Qed.

(** C2, as amended.  Whenever a fetch does not end in success, its
    destination path is neither created nor modified.  A response with a
    status other than 200 makes it return [(False, "http_<status>")]
    having written nothing: the file system is as it was (no temporary
    file is made, and one that lay at the temporary path stays).  An
    exception inside the [try] goes to the [except] clause.  When the
    clean-up there goes through, the fetch returns
    [(False, "error_<kind>")] and no file is left at the temporary path;
    nothing else changed.  When the clean-up itself raises ([os.remove]
    fails, or a directory lies at the temporary path), that exception
    leaves the fetch, nothing is returned, and what the body of the [try]
    had written stays at the temporary path.  The destination changes
    only in a call that returns [(True, "downloaded")], after a 200
    response streamed to its end, by the rename of the temporary file: it
    then holds the whole body and the temporary path is free. *)
Theorem C2_destination_never_partial E url out_path timeout w :
  let o := download_file E url out_path timeout w in
  let tr' := trace w ++ [EvFetch url out_path; EvGet url] in
  (∀ reason w', o = Return (false, reason) w' →
     fs w' !! out_path = fs w !! out_path
     ∧ ((∃ st cs ab,
           net E (trace w ++ [EvFetch url out_path]) url timeout
             = Response st cs ab
           ∧ st ≠ 200 ∧ reason = "http_" +:+ pretty st ∧ fs w' = fs w)
        ∨ (∃ k f', try_raises E url out_path timeout w k f'
                   ∧ reason = "error_" +:+ k
                   ∧ fs w' = delete (tmp_of out_path) (fs w)
                   ∧ fs w' !! tmp_of out_path = None)))
  ∧ (∀ e w', o = Raise e w' → fs w' !! out_path = fs w !! out_path)
  ∧ (fs (final_world o) !! out_path ≠ fs w !! out_path →
       ∃ cs,
         net E (trace w ++ [EvFetch url out_path]) url timeout
           = Response 200 cs None
         ∧ result_of o = Some (true, "downloaded")
         ∧ fs (final_world o) !! out_path = Some (File (concat cs))
         ∧ fs (final_world o) !! tmp_of out_path = None)
  ∧ (∀ st cs ab,
       present (fs w) out_path = false →
       net E (trace w ++ [EvFetch url out_path]) url timeout
         = Response st cs ab →
       st ≠ 200 →
       o = Return (false, "http_" +:+ pretty st) (World (fs w) tr'))
  ∧ (∀ k f',
       present (fs w) out_path = false →
       try_raises E url out_path timeout w k f' →
       (cleanup_error E f' (tmp_of out_path) = None →
        o = Return (false, "error_" +:+ k)
              (World (delete (tmp_of out_path) (fs w)) tr'))
       ∧ (∀ e, cleanup_error E f' (tmp_of out_path) = Some e →
               o = Raise e (World f' tr')
               ∧ f' !! out_path = fs w !! out_path
               ∧ (f' = fs w
                  ∨ ∃ d, f' = <[tmp_of out_path := File d]> (fs w)))).
Proof.
  intros o tr'. pose proof (tmp_of_ne out_path) as Hne.
  pose proof (download_file_cases E url out_path timeout w) as Hc.
  pose proof (download_file_destination E url out_path timeout w) as Hdest.
  fold o in Hc, Hdest. split; [|split; [|split; [|split]]].
  - intros reason w' Ho. rewrite Ho in Hc, Hdest.
    split; [by apply Hdest|]. inversion Hc; subst.
    + left. eauto 10.
    + right. exists k, f'. repeat split; try done.
      simpl. by rewrite lookup_delete_eq.
  - intros e w' Ho. rewrite Ho in Hdest. by apply Hdest.
  - intros Hchg. destruct Hc; simpl in *; try done.
    + exists cs.
      rewrite lookup_insert_eq, lookup_insert_ne, lookup_delete_eq by done.
      done.
    + by rewrite lookup_delete_ne in Hchg.
    + destruct Hchg. by apply Hdest.
  - intros st cs ab Hp Hnet Hst. by apply download_file_http with cs ab.
  - intros k f' Hp Hk.
    pose proof (download_file_try_raised E url out_path timeout w k f' Hp Hk)
      as Hrun. fold o in Hrun.
    split; [intros Hcl; by rewrite Hcl in Hrun|].
    intros e Hcl. rewrite Hcl in Hrun. split; [done|].
    destruct (try_raises_fs _ _ _ _ _ _ _ Hk) as [->|[d ->]].
    + split; [done|by left].
    + split; [by rewrite lookup_insert_ne|right; by exists d].
Qed.

(** *** The image fetches *)

Lemma n_ok_fail_length oks : n_ok oks + n_fail oks = Z.of_nat (length oks).
Proof.
  unfold n_ok, n_fail. induction oks as [|[] oks IH]; simpl in *; lia.
Qed.

Lemma fetch_chain_length E avatar_id out_root base_params timeout poses w oks w' :
  fetch_chain E avatar_id out_root base_params timeout poses w oks w' →
  length oks = length poses.
Proof. induction 1; simpl; auto. Qed.

Lemma fetch_chain_trace E avatar_id out_root base_params timeout poses w oks w' :
  fetch_chain E avatar_id out_root base_params timeout poses w oks w' →
  ∃ evs, trace w' = trace w ++ evs
         ∧ fetch_paths evs = map (png_path out_root avatar_id) poses.
Proof.
  induction 1
    as [w|pose rest w url ok reason w1 oks w2 Hu Hd _ (evs & Htr & Hfp)].
  - exists []. by rewrite app_nil_r.
  - pose proof (download_file_trace E url
                  (png_path out_root avatar_id pose) timeout w) as Ht.
    rewrite Hd in Ht. simpl in Ht. destruct Ht as [Ht|Ht].
    + eexists (_ :: evs). rewrite Htr, Ht, <- app_assoc. split; [done|].
      simpl. by rewrite Hfp.
    + eexists (_ :: _ :: evs). rewrite Htr, Ht, <- app_assoc. split; [done|].
      simpl. by rewrite Hfp.
Qed.

Lemma pose_loop_chain E avatar_id out_root base_params timeout poses :
  ∀ r w r' w',
    pose_loop E avatar_id out_root base_params timeout poses r w = Return r' w' →
    ∃ oks,
      fetch_chain E avatar_id out_root base_params timeout poses w oks w'
      ∧ avatar r' = avatar r ∧ glb r' = glb r
      ∧ png_ok r' = png_ok r + n_ok oks
      ∧ png_fail r' = png_fail r + n_fail oks.
Proof.
  induction poses as [|pose rest IH]; intros r w r' w' Hrun.
  - rewrite pose_loop_nil in Hrun. injection Hrun as <- <-.
    exists []. unfold n_ok, n_fail. simpl. repeat split; try lia. constructor.
  - rewrite pose_loop_cons in Hrun.
    destruct (png_url avatar_id base_params pose) as [url|] eqn:Hu; [|done].
    destruct (download_file _ _ _ _ _) as [[ok reason] w1|e w1] eqn:Hd; [|done].
    destruct (IH _ _ _ _ Hrun) as (oks & Hch & Ha & Hg & Hok & Hfail).
    exists (ok :: oks). split; [by econstructor|].
    unfold n_ok, n_fail in *. destruct ok; simpl in *; repeat split; try done; lia.
Qed.

Lemma pose_loop_returns E avatar_id out_root base_params timeout poses :
  encodable base_params →
  ∀ r w,
    (∀ pose, pose ∈ poses →
       cleanable E (fs w) (tmp_of (png_path out_root avatar_id pose))) →
    ∃ r' w',
      pose_loop E avatar_id out_root base_params timeout poses r w
      = Return r' w'.
Proof.
  intros Henc. induction poses as [|pose rest IH]; intros r w Hd.
  - rewrite pose_loop_nil. eauto.
  - rewrite pose_loop_cons.
    destruct (proj2 (png_url_is_Some avatar_id base_params pose) Henc)
      as [url ->].
    destruct (download_file_returns E url
                (png_path out_root avatar_id pose) timeout w)
      as ([ok reason] & w1 & Hrun); [apply Hd; by left|].
    rewrite Hrun. apply IH. intros p Hp.
    pose proof (cleanable_after E url
                  (png_path out_root avatar_id pose) timeout w _
                  (Hd p ltac:(by right))) as Hc.
    by rewrite Hrun in Hc.
Qed.

(** Where the loop over the poses raises: at a pose whose URL cannot be
    rendered, before its fetch, or out of the fetch of a pose, by its
    clean-up; the poses before were fetched and the poses after are not
    attempted. *)
Lemma pose_loop_raises E avatar_id out_root base_params timeout poses :
  ∀ r w e w',
    pose_loop E avatar_id out_root base_params timeout poses r w = Raise e w' →
    ∃ before pose rest evs,
      poses = before ++ pose :: rest
      ∧ trace w' = trace w ++ evs
      ∧ (e = "UnicodeEncodeError"
         ∧ png_url avatar_id base_params pose = None
         ∧ fetch_paths evs = map (png_path out_root avatar_id) before
         ∨ cleanup_error E (fs w')
             (tmp_of (png_path out_root avatar_id pose)) = Some e
           ∧ fetch_paths evs
             = map (png_path out_root avatar_id) (before ++ [pose])).
Proof.
  induction poses as [|pose rest IH]; intros r w e w' Hrun.
  - by rewrite pose_loop_nil in Hrun.
  - rewrite pose_loop_cons in Hrun.
    destruct (png_url avatar_id base_params pose) as [url|] eqn:Hu.
    2:{ injection Hrun as <- <-. exists [], pose, rest, [].
        rewrite app_nil_r. split; [done|]. split; [done|]. by left. }
    pose proof (download_file_trace E url (png_path out_root avatar_id pose)
                  timeout w) as Ht.
    destruct (download_file _ _ _ _ _) as [[ok reason] w1|e1 w1] eqn:Hd;
      simpl in Ht.
    + destruct (IH _ _ _ _ Hrun)
        as (before & p & rest' & evs & -> & Htr & Hcase).
      assert (∃ first, trace w1 = trace w ++ first
                       ∧ fetch_paths first
                         = [png_path out_root avatar_id pose])
        as (first & Hf1 & Hf2) by (destruct Ht as [-> | ->]; eauto).
      exists (pose :: before), p, rest', (first ++ evs).
      split; [done|]. split; [by rewrite Htr, Hf1, <- app_assoc|].
      unfold fetch_paths in *. rewrite omap_app, Hf2.
      destruct Hcase as [(-> & Hn & ->)|(Hcl & ->)]; [by left|by right].
    + injection Hrun as -> ->.
      destruct (download_file_raises _ _ _ _ _ _ _ Hd) as (Hcl & _).
      assert (∃ first, trace w' = trace w ++ first
                       ∧ fetch_paths first
                         = [png_path out_root avatar_id pose])
        as (first & Hf1 & Hf2) by (destruct Ht as [-> | ->]; eauto).
      exists [], pose, rest, first. split; [done|]. split; [done|]. by right.
Qed.

(** A successful fetch gives one of two reasons, neither a failure mark. *)
Lemma download_file_ok_reason E url out_path timeout w reason w' :
  download_file E url out_path timeout w = Return (true, reason) w' →
  reason = "exists" ∨ reason = "downloaded".
Proof.
  intros H. pose proof (download_file_cases E url out_path timeout w) as Hc.
  rewrite H in Hc. inversion Hc; auto.
Qed.

(** C3. When the model fetch fails, the avatar task returns at once: the
    result records the model failure alone, with both image counts at
    zero, and the only fetch attempted is the one of the model. *)
Theorem C3_model_failure_short_circuits
    E avatar_id out_root base_params timeout w w1 reason w2 :
  safe_mkdir E (os.path_join out_root avatar_id) w = Return tt w1 →
  download_file E (glb_url avatar_id) (glb_path out_root avatar_id) timeout w1
    = Return (false, reason) w2 →
  process_avatar E avatar_id out_root base_params timeout w
  = Return (mkResult avatar_id (Some ("FAILED (" +:+ reason +:+ ")")) 0 0) w2
  ∧ model_failed (mkResult avatar_id (Some ("FAILED (" +:+ reason +:+ ")")) 0 0)
    = true
  ∧ ∃ evs, trace w2 = trace w ++ evs
           ∧ fetch_paths evs = [glb_path out_root avatar_id].
Proof.
  intros Hmk Hdl. rewrite process_avatar_run, Hmk, Hdl.
  split; [done|]. split; [done|].
  pose proof (safe_mkdir_cases E (os.path_join out_root avatar_id) w) as Hc.
  rewrite Hmk in Hc. destruct Hc as (Htr & _).
  pose proof (download_file_trace E (glb_url avatar_id)
                (glb_path out_root avatar_id) timeout w1) as Ht.
  rewrite Hdl in Ht. simpl in Ht. rewrite Htr in Ht.
  destruct Ht as [Ht|Ht]; eauto.
Qed.


(** C4, as amended.  When the model fetch succeeds, the avatar task goes
    through the four poses in their fixed order and calls [download_file]
    once for each, from the world the fetch before left and whatever that
    fetch returned, success or failure: a result it returns counts the
    successes and the failures among these four outcomes, so the two
    counts add up to 4.  The task does return when the parameters can be
    URL-encoded and the temporary path of each image can be cleaned up
    (no directory lies there and [os.remove] has no fault there).
    Otherwise it raises and the poses that are left are not attempted:
    with parameters that cannot be encoded, [UnicodeEncodeError] leaves
    the task before the first image fetch; and when the clean-up of a
    fetch raises, that exception leaves the task after the fetches of the
    poses up to that one.  Each choice of failing poses occurs: under a
    service that refuses the images of any chosen poses, all four fetches
    are attempted and the counts are those of the choice. *)
Theorem C4_four_image_fetches :
  (∀ E avatar_id out_root base_params timeout w w1 reason w2,
     safe_mkdir E (os.path_join out_root avatar_id) w = Return tt w1 →
     download_file E (glb_url avatar_id) (glb_path out_root avatar_id)
       timeout w1 = Return (true, reason) w2 →
     (∀ r w3,
        process_avatar E avatar_id out_root base_params timeout w
        = Return r w3 →
        ∃ oks evs,
          fetch_chain E avatar_id out_root base_params timeout POSES w2 oks w3
          ∧ length oks = 4%nat
          ∧ trace w3 = trace w2 ++ evs
          ∧ fetch_paths evs = map (png_path out_root avatar_id) POSES
          ∧ glb r = Some reason ∧ model_failed r = false
          ∧ png_ok r = n_ok oks ∧ png_fail r = n_fail oks
          ∧ png_ok r + png_fail r = 4)
     ∧ (encodable base_params →
        (∀ pose, pose ∈ POSES →
           cleanable E (fs w2) (tmp_of (png_path out_root avatar_id pose))) →
        ∃ r w3,
          process_avatar E avatar_id out_root base_params timeout w
          = Return r w3)
     ∧ (¬ encodable base_params →
        process_avatar E avatar_id out_root base_params timeout w
        = Raise "UnicodeEncodeError" w2)
     ∧ (∀ e w3,
          process_avatar E avatar_id out_root base_params timeout w
          = Raise e w3 →
          e = "UnicodeEncodeError" ∧ ¬ encodable base_params ∧ w3 = w2
          ∨ ∃ before pose rest evs,
              POSES = before ++ pose :: rest
              ∧ trace w3 = trace w2 ++ evs
              ∧ fetch_paths evs
                = map (png_path out_root avatar_id) (before ++ [pose])
              ∧ cleanup_error E (fs w3)
                  (tmp_of (png_path out_root avatar_id pose)) = Some e))
  ∧ (∀ b1 b2 b3 b4 : bool,
       let oks := [b1; b2; b3; b4] in
       let o := process_avatar
                  (service_failing "0a1b" demo_params (failing_poses oks))
                  "0a1b" "out" demo_params 60 w_empty in
       result_of o
       = Some (mkResult "0a1b" (Some "downloaded") (n_ok oks) (n_fail oks))
       ∧ fetch_paths (trace (final_world o)) = task_paths "out" "0a1b").
Proof.
  split; [|by intros [] [] [] []; split; vm_compute].
  intros E avatar_id out_root base_params timeout w w1 reason w2 Hmk Hdl.
  rewrite process_avatar_run, Hmk, Hdl. split; [|split; [|split]].
  - intros r w3 Hrun.
    destruct (pose_loop_chain _ _ _ _ _ _ _ _ _ _ Hrun)
      as (oks & Hch & _ & Hg & Hok & Hfail).
    destruct (fetch_chain_trace _ _ _ _ _ _ _ _ _ Hch) as (evs & Htr & Hfp).
    pose proof (fetch_chain_length _ _ _ _ _ _ _ _ _ Hch) as Hlen.
    pose proof (n_ok_fail_length oks) as Hsum. rewrite Hlen in Hsum.
    simpl in *. exists oks, evs. repeat split; try done; try lia.
    unfold model_failed. rewrite Hg.
    by destruct (download_file_ok_reason _ _ _ _ _ _ _ Hdl) as [-> | ->].
  - intros Henc Hd. by apply pose_loop_returns.
  - intros Hno. unfold POSES. rewrite pose_loop_cons.
    by rewrite (proj2 (png_url_None avatar_id base_params "power-stance") Hno).
  - intros e w3 Hrun.
    destruct (png_url avatar_id base_params "power-stance") as [url|] eqn:Hu.
    + right.
      destruct (pose_loop_raises _ _ _ _ _ _ _ _ _ _ Hrun)
        as (before & pose & rest & evs & HP & Htr & [(_ & Hn & _)|(Hcl & Hfp)]).
      * apply png_url_None in Hn. destruct Hn.
        apply (png_url_is_Some avatar_id base_params "power-stance").
        by eexists.
      * by exists before, pose, rest, evs.
    + left. unfold POSES in Hrun. rewrite pose_loop_cons, Hu in Hrun.
      injection Hrun as <- <-. split; [done|]. split; [|done].
      by apply (png_url_None avatar_id base_params "power-stance").
Qed.

(** C6, as amended.  The avatar task returns an [AvatarResult], whatever
    the service does (any status, a transport exception before or during
    the body) and whatever fails in opening, writing or renaming the
    temporary files, as long as its directory can be made, each of its
    five temporary paths can be cleaned up, and the parameters can be
    URL-encoded.  When it raises, the exception is the one of the
    directory creation ([FileExistsError] for a regular file in the way,
    or the fault of the environment), or the one the [except] clause of a
    fetch ran into when removing a temporary path, or the
    [UnicodeEncodeError] of parameters that cannot be encoded, met after
    the model was fetched.  Each of these does leave the task: the
    exception of the directory creation, the exception a fetch of the
    model raises, and the encoding error once the model is there. *)
Theorem C6_task_returns_unless E avatar_id out_root base_params timeout w :
  (∀ w1,
     safe_mkdir E (os.path_join out_root avatar_id) w = Return tt w1 →
     (∀ p, p ∈ task_paths out_root avatar_id →
        cleanable E (fs w1) (tmp_of p)) →
     encodable base_params →
     ∃ r w', process_avatar E avatar_id out_root base_params timeout w
             = Return r w')
  ∧ (∀ e w',
       process_avatar E avatar_id out_root base_params timeout w = Raise e w' →
       (w' = w
        ∧ (is_file (fs w) (os.path_join out_root avatar_id) = true
           ∧ e = "FileExistsError"
           ∨ os_fault E (SysMkdir (os.path_join out_root avatar_id)) = Some e))
       ∨ (∃ p, p ∈ task_paths out_root avatar_id
               ∧ cleanup_error E (fs w') (tmp_of p) = Some e)
       ∨ (e = "UnicodeEncodeError" ∧ ¬ encodable base_params
          ∧ ∃ w1 reason,
              safe_mkdir E (os.path_join out_root avatar_id) w = Return tt w1
              ∧ download_file E (glb_url avatar_id)
                  (glb_path out_root avatar_id) timeout w1
                = Return (true, reason) w'))
  ∧ (∀ w1 reason w2,
       safe_mkdir E (os.path_join out_root avatar_id) w = Return tt w1 →
       download_file E (glb_url avatar_id) (glb_path out_root avatar_id)
         timeout w1 = Return (true, reason) w2 →
       ¬ encodable base_params →
       process_avatar E avatar_id out_root base_params timeout w
       = Raise "UnicodeEncodeError" w2)
  ∧ (∀ e w',
       safe_mkdir E (os.path_join out_root avatar_id) w = Raise e w' →
       process_avatar E avatar_id out_root base_params timeout w
       = Raise e w')
  ∧ (∀ w1 e w',
       safe_mkdir E (os.path_join out_root avatar_id) w = Return tt w1 →
       download_file E (glb_url avatar_id) (glb_path out_root avatar_id)
         timeout w1 = Raise e w' →
       process_avatar E avatar_id out_root base_params timeout w
       = Raise e w').
Proof.
  split; [|split; [|split; [|split]]].
  - intros w1 Hmk Hd Henc. rewrite process_avatar_run, Hmk.
    destruct (download_file_returns E (glb_url avatar_id)
                (glb_path out_root avatar_id) timeout w1)
      as ([ok reason] & w2 & Hrun); [apply Hd; by left|].
    rewrite Hrun. destruct ok; [|eauto].
    apply pose_loop_returns; [done|]. intros pose Hp.
    pose proof (cleanable_after E (glb_url avatar_id)
                  (glb_path out_root avatar_id) timeout w1
                  (tmp_of (png_path out_root avatar_id pose))) as Hc.
    rewrite Hrun in Hc. apply Hc, Hd. unfold task_paths.
    apply list_elem_of_further, list_elem_of_fmap. eauto.
  - intros e w' Hrun. rewrite process_avatar_run in Hrun.
    pose proof (safe_mkdir_cases E (os.path_join out_root avatar_id) w) as Hmk.
    destruct (safe_mkdir _ _ _) as [[] w1|e1 w1] eqn:Hmk'; cycle 1.
    { injection Hrun as -> ->. left. destruct Hmk as (-> & [Hf|[_ Hf]]); auto. }
    destruct (download_file _ _ _ _ w1) as [[ok reason] w2|e2 w2] eqn:Hd.
    + destruct ok; [|done].
      destruct (pose_loop_raises _ _ _ _ _ _ _ _ _ _ Hrun)
        as (before & p & rest & evs & HP & Htr & [(-> & Hn & _)|(Hcl & _)]).
      * right. right. split; [done|].
        split; [by apply (png_url_None avatar_id base_params p)|].
        exists w1, reason. split; [done|].
        pose proof (proj2 (png_url_None avatar_id base_params "power-stance")
                      (proj1 (png_url_None avatar_id base_params p) Hn)) as H1.
        unfold POSES in Hrun. rewrite pose_loop_cons, H1 in Hrun.
        by injection Hrun as <-.
      * right. left. exists (png_path out_root avatar_id p).
        split; [|done]. unfold task_paths.
        apply list_elem_of_further, list_elem_of_fmap. exists p.
        split; [done|]. rewrite HP. apply elem_of_app. right. by left.
    + injection Hrun as -> ->.
      destruct (download_file_raises _ _ _ _ _ _ _ Hd) as (Hcl & _).
      right. left. exists (glb_path out_root avatar_id).
      split; [|done]. unfold task_paths. by left.
  - intros w1 reason w2 Hmk Hdl Hno.
    rewrite process_avatar_run, Hmk, Hdl. unfold POSES.
    rewrite pose_loop_cons.
    by rewrite (proj2 (png_url_None avatar_id base_params "power-stance") Hno).
  - intros e w' Hmk. by rewrite process_avatar_run, Hmk.
  - intros w1 e w' Hmk Hdl. by rewrite process_avatar_run, Hmk, Hdl.
Qed.

(** ** Dispatch and the exit code *)

Lemma foldl_count_on_failures rs :
  ∀ s s',
    foldl count_on (Some s) rs = Some s' →
    Summary.fail_glb s'
    = Summary.fail_glb s + Z.of_nat (length (List.filter model_failed rs)).
Proof.
  induction rs as [|r rs IH]; intros s s' H; simpl in *.
  - injection H as <-. lia.
  - unfold count, model_failed in *. destruct (glb r) as [g|]; simpl in H.
    + rewrite (IH _ _ H). destruct (startswith "FAILED" g); simpl; lia.
    + by rewrite foldl_count_on_None in H.
Qed.

Lemma exit_code_failures rs s :
  foldl count_on (Some Summary.zero) rs = Some s →
  exit_code s = (if existsb model_failed rs then 2 else 0).
Proof.
  intros H. apply foldl_count_on_failures in H. unfold exit_code.
  rewrite H. change (Summary.fail_glb Summary.zero) with 0. clear H.
  induction rs as [|r rs IH]; [done|]. cbn [List.filter existsb].
  destruct (model_failed r); cbn [orb length]; [|done].
  destruct (Z.eqb_spec (0 + Z.of_nat (S (length (List.filter model_failed rs)))) 0);
    [lia|done].
Qed.

(** A task that returns has set the model outcome. *)
Lemma process_avatar_glb E avatar_id out_root base_params timeout w r w' :
  process_avatar E avatar_id out_root base_params timeout w = Return r w' →
  is_Some (glb r).
Proof.
  rewrite process_avatar_run. destruct (safe_mkdir _ _ _) as [[] w1|]; [|done].
  destruct (download_file _ _ _ _ _) as [[[] reason] w2|]; try done.
  - intros H. apply pose_loop_chain in H as (_ & _ & _ & -> & _). eauto.
  - intros [= <- _]. eauto.
Qed.

(** The pool never raises, and hands back one future for each task. *)
Lemma run_pool_cases E out_root base_params timeout tasks :
  ∀ w, ∃ futures w',
    run_pool E out_root base_params timeout tasks w = Return futures w'
    ∧ length futures = length tasks
    ∧ ∀ r, Done r ∈ futures → is_Some (glb r).
Proof.
  induction tasks as [|avatar_id rest IH]; intros w.
  - exists [], w. split; [done|]. split; [done|]. intros r Hr. by inversion Hr.
  - cbn [run_pool]. rewrite bind_run. unfold try_except. rewrite bind_run.
    destruct (process_avatar _ _ _ _ _ _) as [r w1|e w1] eqn:Hrun; simpl.
    + rewrite bind_run. destruct (IH w1) as (fs' & w' & -> & Hlen & Hglb).
      simpl. exists (Done r :: fs'), w'. split; [done|]. split; [simpl; lia|].
      intros r' Hr'. inversion Hr'; subst; [|by apply Hglb].
      by eapply process_avatar_glb.
    + rewrite bind_run. destruct (IH w1) as (fs' & w' & -> & Hlen & Hglb).
      simpl. exists (Failed e :: fs'), w'. split; [done|]. split; [simpl; lia|].
      intros r' Hr'. inversion Hr'; subst. by apply Hglb.
Qed.

(** A failed future is the exception of one of the tasks. *)
Lemma run_pool_failed E out_root base_params timeout tasks :
  ∀ w futures w' e,
    run_pool E out_root base_params timeout tasks w = Return futures w' →
    Failed e ∈ futures →
    ∃ avatar_id wa wb,
      avatar_id ∈ tasks
      ∧ process_avatar E avatar_id out_root base_params timeout wa = Raise e wb.
Proof.
  induction tasks as [|avatar_id rest IH]; intros w futures w' e Hrun Hin.
  - injection Hrun as <- <-. by inversion Hin.
  - cbn [run_pool] in Hrun. rewrite bind_run in Hrun. unfold try_except in Hrun.
    rewrite bind_run in Hrun.
    destruct (process_avatar _ _ _ _ _ _) as [r w1|e1 w1] eqn:Htask;
      simpl in Hrun; rewrite bind_run in Hrun;
      destruct (run_pool _ _ _ _ rest w1) as [fs' w2|] eqn:Hrest; try done;
      injection Hrun as <- <-; inversion Hin; subst.
    + destruct (IH _ _ _ _ Hrest ltac:(done)) as (i & wa & wb & Hi & Hr).
      exists i, wa, wb. split; [by right|done].
    + exists avatar_id, w, w1. split; [by left|done].
    + destruct (IH _ _ _ _ Hrest ltac:(done)) as (i & wa & wb & Hi & Hr).
      exists i, wa, wb. split; [by right|done].
Qed.

Lemma aggregate_raises futures :
  ∀ s w e w',
    aggregate futures s w = Raise e w' →
    Failed e ∈ futures ∨ ∃ r, Done r ∈ futures ∧ glb r = None.
Proof.
  induction futures as [|[r|e1] rest IH]; intros s w e w' H; simpl in H.
  - done.
  - unfold count in H. destruct (glb r) as [g|] eqn:Hg; simpl in H.
    + rewrite bind_run in H. simpl in H.
      destruct (IH _ _ _ _ H) as [Hf|(r' & Hr' & Hn)].
      * left. by right.
      * right. exists r'. split; [by right|done].
    + right. exists r. split; [by left|done].
  - injection H as -> ->. left. by left.
Qed.

Lemma aggregate_returns futures :
  ∀ s w s' w',
    aggregate futures s w = Return s' w' →
    ∃ rs, futures = Done <$> rs ∧ foldl count_on (Some s) rs = Some s'.
Proof.
  induction futures as [|[r|e] rest IH]; intros s w s' w' H; simpl in H.
  - injection H as <- <-. by exists [].
  - unfold count in H. destruct (glb r) as [g|] eqn:Hg; simpl in H; [|done].
    rewrite bind_run in H. simpl in H.
    destruct (IH _ _ _ _ H) as (rs & -> & Hfold).
    exists (r :: rs). split; [done|]. simpl. unfold count. by rewrite Hg.
  - done.
Qed.

Lemma aggregate_done rs :
  ∀ s w, (∀ r, r ∈ rs → is_Some (glb r)) →
    ∃ s' w', aggregate (Done <$> rs) s w = Return s' w'
             ∧ foldl count_on (Some s) rs = Some s'.
Proof.
  induction rs as [|r rs IH]; intros s w Hg; simpl.
  - eauto.
  - destruct (Hg r) as [g Hgr]; [by left|]. unfold count. rewrite Hgr. simpl.
    rewrite bind_run. simpl. apply IH. intros r' Hr'. apply Hg. by right.
Qed.

Lemma print_lines_run ls w :
  mapM print ls w = Return (const tt <$> ls) (World (fs w) (trace w ++ (EvPrint <$> ls))).
Proof.
  revert w. induction ls as [|l ls IH]; intros [f tr]; simpl.
  - by rewrite app_nil_r.
  - rewrite bind_run. simpl. rewrite bind_run, IH. simpl.
    by rewrite <- app_assoc.
Qed.

Section MainFacts.

Variable pool :
  env → string → list (string * text) → Z → list string → M (list future).

Lemma main_unreadable E a e w :
  main pool E a (Unreadable e) w
  = match safe_mkdir E (Args.output_dir a) w with
    | Raise e' w' => Raise e' w'
    | Return _ w1 => Raise e w1
    end.
Proof.
  unfold main. rewrite bind_run.
  by destruct (safe_mkdir _ _ _) as [[] w1|e' w1].
Qed.

Lemma main_run E a lines w :
  main pool E a (Lines lines) w
  = match safe_mkdir E (Args.output_dir a) w with
    | Raise e w' => Raise e w'
    | Return _ w1 =>
        match (parse_lines lines).1 with
        | [] =>
            Return 1 (World (fs w1)
                        (trace w1 ++ [EvPrint "No valid avatar IDs found."]))
        | _ :: _ =>
            if Args.threads a <=? 0
            then Raise "ValueError" (pool_start a lines w1)
            else
              match pool E (Args.output_dir a) (base_params_of a)
                      (Args.timeout a) (parse_lines lines).1
                      (pool_start a lines w1) with
              | Raise e w' => Raise e w'
              | Return futures w2 =>
                  match aggregate futures Summary.zero w2 with
                  | Raise e w' => Raise e w'
                  | Return s w3 =>
                      Return (exit_code s)
                        (World (fs w3)
                           (trace w3 ++ (EvPrint <$> summary_lines s)))
                  end
              end
        end
    end.
Proof.
  unfold main, pool_start. rewrite bind_run.
  destruct (safe_mkdir _ _ _) as [[] w1|e w1]; [|done].
  rewrite bind_run. cbn [read_lines]. unfold mret at 1, M_ret at 1.
  destruct (parse_lines lines) as [ids bad]. destruct ids as [|i ids]; [done|].
  cbn [fst snd]. rewrite bind_run. simpl print. unfold print, log at 1.
  cbn beta iota. rewrite bind_run.
  destruct (Args.threads a <=? 0); [done|]. cbn beta iota.
  unfold mret at 1, M_ret at 1. cbn beta iota. rewrite bind_run.
  destruct (pool _ _ _ _ _ _) as [futures w2|e w2]; [|done].
  rewrite bind_run. destruct (aggregate _ _ _) as [s w3|e w3]; [|done].
  rewrite bind_run. fold print. by rewrite print_lines_run.
Qed.

(** What [main] returns. *)
Lemma main_returns E a lines w c w' :
  main pool E a (Lines lines) w = Return c w' →
  let ids := (parse_lines lines).1 in
  (c = 1 ↔ ids = [])
  ∧ (ids ≠ [] →
     ∃ w1 w2 rs,
       safe_mkdir E (Args.output_dir a) w = Return tt w1
       ∧ pool E (Args.output_dir a) (base_params_of a) (Args.timeout a) ids
           (pool_start a lines w1)
         = Return (Done <$> rs) w2
       ∧ (c = 2 ↔ ∃ r, r ∈ rs ∧ model_failed r = true)
       ∧ (c = 0 ↔ ∀ r, r ∈ rs → model_failed r = false)).
Proof.
  intros Hrun ids. rewrite main_run in Hrun. fold ids in Hrun. revert Hrun.
  destruct (safe_mkdir _ _ _) as [[] w1|e w1]; [|done].
  destruct ids as [|i ids'] eqn:Hids.
  { intros [= <- _]. split; [done|]. by intros []. }
  destruct (Args.threads a <=? 0); [done|].
  destruct (pool _ _ _ _ _ _) as [futures w2|e w2] eqn:Hpool; [|done].
  destruct (aggregate _ _ _) as [s w3|e w3] eqn:Hagg; [|done].
  intros [= <- _].
  destruct (aggregate_returns _ _ _ _ _ Hagg) as (rs & -> & Hfold).
  rewrite (exit_code_failures rs s Hfold).
  assert (Hex : existsb model_failed rs = true
                ↔ ∃ r, r ∈ rs ∧ model_failed r = true).
  { rewrite existsb_exists. by setoid_rewrite list_elem_of_In. }
  split.
  + split; [|done]. by destruct (existsb _ _).
  + intros _. exists w1, w2, rs. split; [done|]. split; [done|].
    destruct (existsb model_failed rs) eqn:Hany.
    * split; [by rewrite <- Hex|]. split; [done|]. intros Hall.
      destruct (proj1 Hex eq_refl) as (r & Hr & Hf).
      by rewrite (Hall r Hr) in Hf.
    * split.
      -- split; [done|]. intros H. by apply Hex in H.
      -- split; [|done]. intros _ r Hr. apply not_true_is_false.
         intros Hf. assert (false = true) by (apply Hex; eauto). done.
Qed.

(** A return code is 0, 1 or 2. *)
Lemma main_codes E a lines w c w' :
  main pool E a (Lines lines) w = Return c w' → c = 0 ∨ c = 1 ∨ c = 2.
Proof.
  rewrite main_run. destruct (safe_mkdir _ _ _) as [[] w1|e w1]; [|done].
  destruct ((parse_lines lines).1) as [|i ids'].
  { intros [= <- _]. auto. }
  destruct (Args.threads a <=? 0); [done|].
  destruct (pool _ _ _ _ _ _) as [futures w2|e w2]; [|done].
  destruct (aggregate _ _ _) as [s w3|e w3]; [|done].
  intros [= <- _]. unfold exit_code. destruct (_ =? _); auto.
Qed.

(** Why [main] raises. *)
Lemma main_raises E a lines w e w' :
  main pool E a (Lines lines) w = Raise e w' →
  let ids := (parse_lines lines).1 in
  safe_mkdir E (Args.output_dir a) w = Raise e w'
  ∨ ids ≠ []
    ∧ ∃ w1,
        safe_mkdir E (Args.output_dir a) w = Return tt w1
        ∧ (Args.threads a ≤ 0 ∧ e = "ValueError"
           ∨ 0 < Args.threads a
             ∧ (pool E (Args.output_dir a) (base_params_of a)
                  (Args.timeout a) ids (pool_start a lines w1)
                = Raise e w'
                ∨ ∃ futures w2,
                    pool E (Args.output_dir a) (base_params_of a)
                      (Args.timeout a) ids (pool_start a lines w1)
                    = Return futures w2
                    ∧ (Failed e ∈ futures
                       ∨ ∃ r, Done r ∈ futures ∧ glb r = None))).
Proof.
  intros Hrun ids. rewrite main_run in Hrun. fold ids in Hrun. revert Hrun.
  destruct (safe_mkdir _ _ _) as [[] w1|e1 w1];
    [|intros [= -> ->]; by left].
  destruct ids as [|i ids'] eqn:Hids; [done|]. intros Hrun. right.
  split; [done|]. exists w1. split; [done|].
  destruct (Z.leb_spec (Args.threads a) 0) as [Hth|Hth].
  { injection Hrun as <- _. by left. }
  right. split; [done|].
  destruct (pool _ _ _ _ _ _) as [futures w2|e2 w2] eqn:Hpool;
    [|left; by injection Hrun as -> ->].
  right. exists futures, w2. split; [done|].
  destruct (aggregate _ _ _) as [s w3|e3 w3] eqn:Hagg; [done|].
  injection Hrun as -> ->. by eapply aggregate_raises.
Qed.

(** [main] returns once the pool has returned results that all carry
    their model outcome. *)
Lemma main_returns_when E a lines w w1 w2 rs :
  safe_mkdir E (Args.output_dir a) w = Return tt w1 →
  (parse_lines lines).1 ≠ [] → 0 < Args.threads a →
  pool E (Args.output_dir a) (base_params_of a) (Args.timeout a)
    (parse_lines lines).1 (pool_start a lines w1)
  = Return (Done <$> rs) w2 →
  (∀ r, r ∈ rs → is_Some (glb r)) →
  ∃ w', main pool E a (Lines lines) w
        = Return (if existsb model_failed rs then 2 else 0) w'.
Proof.
  intros Hw1 Hne Hth Hpool Hglb. rewrite main_run, Hw1.
  destruct ((parse_lines lines).1) as [|i ids'] eqn:Hids; [done|].
  destruct (Z.leb_spec (Args.threads a) 0); [lia|].
  rewrite Hpool.
  destruct (aggregate_done rs Summary.zero w2 Hglb) as (s & w3 & -> & Hfold).
  rewrite (exit_code_failures rs s Hfold). eauto.
Qed.

End MainFacts.

(** C5, as amended.  The process ends with status 0, 1 or 2.  The
    argument parser ends it before anything else with status 0 after
    [--help] and with status 2 for a command line it rejects.  Otherwise
    the status is what [main] returns, or 1 when an exception leaves
    [main].  When [main] returns, its code is 1 exactly when no
    identifier was parsed, and then nothing is fetched: the console line
    is the only event; otherwise it is 2 exactly when the result of some
    task records a failed model download, and 0 exactly when none does,
    whatever the image counts are.  So, past the argument parser, the
    status is 2 only if a model download failed and 0 only if none did.
    But the status is 1 also whenever an exception leaves [main], with
    identifiers parsed and whatever the model outcomes: the exception of
    making the output directory, the one of reading the input file, the
    [ValueError] of a pool without workers, an exception of the pool, or
    the exception of a task, which [f.result()] raises again.  [main]
    does return once the output directory is there, the input file is
    read, the pool has at least one worker and every task has returned
    (tasks for distinct identifiers, which run as one after the
    other). *)
Theorem C5_exit_code :
  (∀ pool E a lines w,
     let o := main pool E a (Lines lines) w in
     let ids := (parse_lines lines).1 in
     (exit_status o = 0 ∨ exit_status o = 1 ∨ exit_status o = 2)
     ∧ (∀ w1,
          safe_mkdir E (Args.output_dir a) w = Return tt w1 → ids = [] →
          o = Return 1 (World (fs w1)
                          (trace w ++ [EvPrint "No valid avatar IDs found."])))
     ∧ (∀ c w',
          o = Return c w' →
          exit_status o = c
          ∧ (c = 1 ↔ ids = [])
          ∧ (ids ≠ [] →
             ∃ w1 w2 rs,
               safe_mkdir E (Args.output_dir a) w = Return tt w1
               ∧ pool E (Args.output_dir a) (base_params_of a)
                   (Args.timeout a) ids (pool_start a lines w1)
                 = Return (Done <$> rs) w2
               ∧ (c = 2 ↔ ∃ r, r ∈ rs ∧ model_failed r = true)
               ∧ (c = 0 ↔ ∀ r, r ∈ rs → model_failed r = false)))
     ∧ (exit_status o = 2 → ∃ w', o = Return 2 w')
     ∧ (exit_status o = 0 → ∃ w', o = Return 0 w')
     ∧ (exit_status o = 1
        ↔ (∃ w', o = Return 1 w') ∨ ∃ e w', o = Raise e w')
     ∧ (∀ e w',
          o = Raise e w' →
          exit_status o = 1
          ∧ (safe_mkdir E (Args.output_dir a) w = Raise e w'
             ∨ ids ≠ []
               ∧ ∃ w1,
                   safe_mkdir E (Args.output_dir a) w = Return tt w1
                   ∧ (Args.threads a ≤ 0 ∧ e = "ValueError"
                      ∨ 0 < Args.threads a
                        ∧ (pool E (Args.output_dir a) (base_params_of a)
                             (Args.timeout a) ids (pool_start a lines w1)
                           = Raise e w'
                           ∨ ∃ futures w2,
                               pool E (Args.output_dir a) (base_params_of a)
                                 (Args.timeout a) ids (pool_start a lines w1)
                               = Return futures w2
                               ∧ (Failed e ∈ futures
                                  ∨ ∃ r, Done r ∈ futures ∧ glb r = None))))))
  ∧ (∀ pool E a e w,
       let o := main pool E a (Unreadable e) w in
       exit_status o = 1
       ∧ ∃ e' w',
           o = Raise e' w' ∧ trace w' = trace w
           ∧ (safe_mkdir E (Args.output_dir a) w = Raise e' w'
              ∨ e' = e ∧ safe_mkdir E (Args.output_dir a) w = Return tt w'))
  ∧ (∀ pool E input w,
       script pool E Help input w = 0
       ∧ script pool E Rejected input w = 2
       ∧ ∀ a, script pool E (Parsed a) input w
              = exit_status (main pool E a input w))
  ∧ (∀ completion E a lines w,
       let o := main (sequential completion) E a (Lines lines) w in
       let ids := (parse_lines lines).1 in
       NoDup ids →
       (∀ w1 w2 rs,
          safe_mkdir E (Args.output_dir a) w = Return tt w1 →
          ids ≠ [] → 0 < Args.threads a →
          run_pool E (Args.output_dir a) (base_params_of a)
            (Args.timeout a) (completion ids) (pool_start a lines w1)
          = Return (Done <$> rs) w2 →
          ∃ w', o = Return (if existsb model_failed rs then 2 else 0) w')
       ∧ (∀ e w',
            o = Raise e w' →
            safe_mkdir E (Args.output_dir a) w = Raise e w'
            ∨ ids ≠ []
              ∧ (Args.threads a ≤ 0 ∧ e = "ValueError"
                 ∨ ∃ avatar_id wa wb,
                     avatar_id ∈ completion ids
                     ∧ process_avatar E avatar_id (Args.output_dir a)
                         (base_params_of a) (Args.timeout a) wa
                       = Raise e wb))).
Proof.
  split; [|split; [|split]].
  - intros pool E a lines w o ids.
    split; [|split; [|split; [|split; [|split; [|split]]]]].
    + destruct o as [c w'|e w'] eqn:Ho; [|by right; left].
      simpl. by apply (main_codes pool E a lines w c w').
    + intros w1 Hw1 Hids. unfold o. rewrite main_run, Hw1. fold ids.
      rewrite Hids.
      pose proof (safe_mkdir_cases E (Args.output_dir a) w) as Hmk.
      rewrite Hw1 in Hmk. destruct Hmk as (-> & _). done.
    + intros c w' Ho. split; [by rewrite Ho|].
      by apply (main_returns pool E a lines w c w').
    + destruct o as [c w'|e w']; simpl; [|done]. intros ->. eauto.
    + destruct o as [c w'|e w']; simpl; [|done]. intros ->. eauto.
    + destruct o as [c w'|e w']; simpl.
      * split; [intros ->; eauto|]. by intros [(w2 & [= ->])|(e & w2 & ?)].
      * split; [eauto|done].
    + intros e w' Ho. split; [by rewrite Ho|].
      by apply (main_raises pool E a lines w e w').
  - intros pool E a e w o. unfold o. rewrite main_unreadable.
    pose proof (safe_mkdir_cases E (Args.output_dir a) w) as Hmk.
    destruct (safe_mkdir _ _ _) as [[] w1|e' w1]; (split; [done|]).
    + destruct Hmk as (Htr & _). exists e, w1. auto.
    + destruct Hmk as (-> & _). exists e', w. auto.
  - intros pool E input w. by repeat split.
  - intros completion E a lines w o ids _. split.
    + intros w1 w2 rs Hw1 Hne Hth Hpool.
      apply (main_returns_when (sequential completion) E a lines w w1 w2 rs);
        try done.
      destruct (run_pool_cases E (Args.output_dir a) (base_params_of a)
                  (Args.timeout a) (completion ids) (pool_start a lines w1))
        as (futures & w2' & Hrun & _ & Hglb).
      rewrite Hpool in Hrun. injection Hrun as <- <-.
      intros r Hr. apply Hglb. by apply list_elem_of_fmap_2.
    + intros e w' Ho.
      destruct (main_raises (sequential completion) E a lines w e w' Ho)
        as [Hmk|(Hne & w1 & Hmk & [Hth|(Hth & Hpool)])]; [by left|..].
      * right. split; [done|]. by left.
      * right. split; [done|]. right. unfold sequential in Hpool. fold ids in Hpool.
        destruct (run_pool_cases E (Args.output_dir a) (base_params_of a)
                    (Args.timeout a) (completion ids) (pool_start a lines w1))
          as (futures & w2 & Hrun & _ & Hglb).
        rewrite Hrun in Hpool.
        destruct Hpool as [?|(futures' & w2' & [= <- <-] & [Hf|(r & Hr & Hn)])];
          [done| |].
        -- eapply run_pool_failed; eauto.
        -- destruct (Hglb r Hr) as [g Hg]. congruence.
Qed.

(** ** The properties at sample inputs *)

(** Goes through the members of a literal list. *)
Ltac each_member H :=
  repeat (apply elem_of_cons in H as [-> | H]; [by (try split; vm_compute)|]);
  by apply elem_of_nil in H.

Lemma C1_present_skips_fetch_witness :
  ∃ evs,
    process_avatar service_404 "0a1b" "out" demo_params 60 w_full
    = Return (mkResult "0a1b" (Some "exists") 4 0)
        (World (fs w_full) (trace w_full ++ evs))
    ∧ get_urls evs = []
    ∧ fetch_paths evs
      = glb_path "out" "0a1b" :: map (png_path "out" "0a1b") POSES.
Proof.
  apply (proj2 C1_present_skips_fetch service_404 "0a1b" "out" demo_params 60
           w_full).
  - apply encodable_values. unfold demo_params.
    repeat (apply Forall_cons; split); try done; by vm_compute.
  - by vm_compute.
  - by vm_compute.
  - intros pose Hp. unfold POSES in Hp. each_member Hp.
Defined.

(** C2 as stated fails: a temporary file left by an interrupted run is still
    there after a fetch that failed on a 404 response. *)
Lemma C2_stale_temporary_file_stays :
  let o := download_file service_404 (glb_url "0a1b") (glb_path "out" "0a1b")
             60 w_stale in
  result_of o = Some (false, "http_404")
  ∧ fs (final_world o) !! tmp_of (glb_path "out" "0a1b")
    = Some (File [Byte.x89]).
Proof. by vm_compute. Qed.

(** And a temporary file stays when its removal is refused: the connection
    breaks after two chunks, [os.remove] raises out of the [except]
    clause, and the fetch ends by that exception with the bytes received
    so far at the temporary path. *)
Example clean_up_refused_leaves_part :
  let o := download_file service_no_remove (glb_url "0a1b")
             (glb_path "out" "0a1b") 60 w_empty in
  raised_of o = Some "PermissionError"
  ∧ fs (final_world o) !! tmp_of (glb_path "out" "0a1b")
    = Some (File [Byte.x89; Byte.x50; Byte.x4e])
  ∧ fs (final_world o) !! glb_path "out" "0a1b" = None.
Proof. by vm_compute. Qed.

Lemma C2_destination_never_partial_witness :
  let out_path := glb_path "out" "0a1b" in
  let w' := final_world (download_file service_breaking (glb_url "0a1b")
                           out_path 60 w_stale) in
  fs w' !! out_path = fs w_stale !! out_path
  ∧ ((∃ st cs ab,
        net service_breaking
          (trace w_stale ++ [EvFetch (glb_url "0a1b") out_path])
          (glb_url "0a1b") 60 = Response st cs ab
        ∧ st ≠ 200 ∧ "error_ChunkedEncodingError" = "http_" +:+ pretty st
        ∧ fs w' = fs w_stale)
     ∨ (∃ k f',
          try_raises service_breaking (glb_url "0a1b") out_path 60 w_stale k f'
          ∧ "error_ChunkedEncodingError" = "error_" +:+ k
             ∧ fs w' = delete (tmp_of out_path) (fs w_stale)
             ∧ fs w' !! tmp_of out_path = None)).
Proof.
  intros out_path w'.
  apply (proj1 (C2_destination_never_partial service_breaking (glb_url "0a1b")
                  out_path 60 w_stale) "error_ChunkedEncodingError" w').
  by vm_compute.
Defined.

Lemma C3_model_failure_short_circuits_witness :
  let w1 := final_world (safe_mkdir service_404 "out/0a1b" w_empty) in
  let w2 := final_world (download_file service_404 (glb_url "0a1b")
                           (glb_path "out" "0a1b") 60 w1) in
  process_avatar service_404 "0a1b" "out" demo_params 60 w_empty
  = Return (mkResult "0a1b" (Some ("FAILED (" +:+ "http_404" +:+ ")")) 0 0) w2
  ∧ model_failed (mkResult "0a1b" (Some ("FAILED (" +:+ "http_404" +:+ ")")) 0 0)
    = true
  ∧ ∃ evs, trace w2 = trace w_empty ++ evs
           ∧ fetch_paths evs = [glb_path "out" "0a1b"].
Proof.
  intros w1 w2.
  apply (C3_model_failure_short_circuits service_404 "0a1b" "out" demo_params
           60 w_empty w1 "http_404" w2); by vm_compute.
Defined.

(** C4 as stated fails: with a directory at the temporary path of the
    image of the third pose, the model is downloaded, the images of the
    first two poses are downloaded, the fetch of the third raises out of
    its [except] clause, and the task ends by that exception: the fourth
    pose is never attempted and no result is returned. *)
Lemma C4_clean_up_failure_aborts :
  let w1 := final_world (safe_mkdir service_ok "out/0a1b" w_part_dir) in
  let o := process_avatar service_ok "0a1b" "out" demo_params 60 w_part_dir in
  result_of (download_file service_ok (glb_url "0a1b") (glb_path "out" "0a1b")
               60 w1)
  = Some (true, "downloaded")
  ∧ o = Raise "IsADirectoryError" (final_world o)
  ∧ fetch_paths (trace (final_world o))
    = [glb_path "out" "0a1b";
       png_path "out" "0a1b" "power-stance";
       png_path "out" "0a1b" "relaxed";
       png_path "out" "0a1b" "standing"]
  ∧ length (fetch_paths (trace (final_world o))) = 4%nat.
Proof. by vm_compute. Qed.

Lemma C4_four_image_fetches_witness :
  let E := service_failing "0a1b" demo_params ["relaxed"; "thumbs-up"] in
  let w1 := final_world (safe_mkdir E "out/0a1b" w_empty) in
  let w2 := final_world (download_file E (glb_url "0a1b")
                           (glb_path "out" "0a1b") 60 w1) in
  let w3 := final_world (process_avatar E "0a1b" "out" demo_params 60 w_empty) in
  let r := mkResult "0a1b" (Some "downloaded") 2 2 in
  ∃ oks evs,
    fetch_chain E "0a1b" "out" demo_params 60 POSES w2 oks w3
    ∧ length oks = 4%nat
    ∧ trace w3 = trace w2 ++ evs
    ∧ fetch_paths evs = map (png_path "out" "0a1b") POSES
    ∧ glb r = Some "downloaded" ∧ model_failed r = false
    ∧ png_ok r = n_ok oks ∧ png_fail r = n_fail oks
    ∧ png_ok r + png_fail r = 4.
Proof.
  intros E w1 w2 w3 r.
  refine (proj1 (proj1 C4_four_image_fetches E "0a1b" "out" demo_params 60
                   w_empty w1 "downloaded" w2 _ _) r w3 _); by vm_compute.
Defined.

Lemma C5_exit_code_witness :
  let lines := ["0a1b.glb" +:+ nl; " " +:+ nl] in
  let ids := (parse_lines lines).1 in
  let o := main (sequential (@rev string)) service_404 demo_args
             (Lines lines) w_empty in
  exit_status o = 2
  ∧ (2 = 1 ↔ ids = [])
  ∧ (ids ≠ [] →
     ∃ w1 w2 rs,
       safe_mkdir service_404 (Args.output_dir demo_args) w_empty
       = Return tt w1
       ∧ sequential (@rev string) service_404 (Args.output_dir demo_args)
           (base_params_of demo_args) (Args.timeout demo_args)
           ids (pool_start demo_args lines w1)
         = Return (Done <$> rs) w2
       ∧ (2 = 2 ↔ ∃ r, r ∈ rs ∧ model_failed r = true)
       ∧ (2 = 0 ↔ ∀ r, r ∈ rs → model_failed r = false)).
Proof.
  intros lines ids o.
  apply (proj1 (proj2 (proj2 (proj1 C5_exit_code (sequential (@rev string))
                                service_404 demo_args lines w_empty)))
           2 (final_world o)).
  by vm_compute.
Defined.

(** C5 as stated fails: the status is 1 with identifiers parsed whenever
    an exception leaves [main].  With [--threads 0] the pool cannot be
    made.  And with two identifiers, the model of the first answered by
    404 and a regular file where the directory of the second should go,
    the first task returns a failed model, the second raises, and the
    status is 1, not 2.  A command line the argument parser rejects gives
    status 2 with no download at all. *)
Lemma C5_raising_run_exits_1 :
  let lines := ["0a1b" +:+ nl; "00ff" +:+ nl] in
  let o := main (sequential id) service_404 no_thread_args (Lines lines)
             w_empty in
  let o' := main (sequential id) service_404 demo_args (Lines lines)
              w_blocked_00ff in
  (parse_lines lines).1 = ["0a1b"; "00ff"]
  ∧ raised_of o = Some "ValueError" ∧ exit_status o = 1
  ∧ script (sequential id) service_404 (Parsed no_thread_args) (Lines lines)
      w_empty = 1
  ∧ raised_of o' = Some "FileExistsError" ∧ exit_status o' = 1
  ∧ printed (trace (final_world o'))
    = ["Avatars: 2 | Threads: 2 | Bad lines: 0";
       "[0a1b] GLB FAILED (http_404)"]
  ∧ script (sequential id) service_404 Rejected (Lines lines) w_empty = 2.
Proof. by vm_compute. Qed.

(** C6 as stated fails: with a regular file where its directory should go,
    the avatar task raises, and [main] ends by that exception. *)
Lemma C6_blocked_directory_raises :
  process_avatar service_ok "0a1b" "out" demo_params 60 w_blocked
  = Raise "FileExistsError" w_blocked
  ∧ raised_of (main (sequential id) service_ok demo_args
                 (Lines ["0a1b" +:+ nl]) w_blocked)
    = Some "FileExistsError".
Proof. by vm_compute. Qed.

(** And with a background that cannot be URL-encoded, the task raises
    once the model is there, before its first image fetch; [main] ends by
    that exception, with status 1. *)
Example stray_background_raises :
  let o := process_avatar service_ok "0a1b" "out" stray_params 60 w_empty in
  let a := Args.mk "ids.txt" "out" 2 1024 "portrait" stray_background 60 in
  let o' := main (sequential id) service_ok a (Lines ["0a1b" +:+ nl])
              w_empty in
  raised_of o = Some "UnicodeEncodeError"
  ∧ fetch_paths (trace (final_world o)) = [glb_path "out" "0a1b"]
  ∧ present (fs (final_world o)) (glb_path "out" "0a1b") = true
  ∧ raised_of o' = Some "UnicodeEncodeError" ∧ exit_status o' = 1.
Proof. by vm_compute. Qed.

Lemma C6_task_returns_unless_witness :
  ∃ r w',
    process_avatar service_breaking "0a1b" "out" demo_params 60 w_stale
    = Return r w'.
Proof.
  apply (proj1 (C6_task_returns_unless service_breaking "0a1b" "out"
                  demo_params 60 w_stale)
           (final_world (safe_mkdir service_breaking "out/0a1b" w_stale))).
  - by vm_compute.
  - intros p Hp. unfold task_paths, POSES in Hp. simpl map in Hp.
    each_member Hp.
  - apply encodable_values. unfold demo_params.
    repeat (apply Forall_cons; split); try done; by vm_compute.
Defined.

(** ** The scenarios of the specification *)

(** Three identifiers and a blank line, two workers, 200 for everything:
    three models, twelve images, exit code 0. *)
Example scenario_all_ok :
  let o := main (sequential id) service_ok demo_args
             (Lines ["0a1b" +:+ nl; nl; "00ff.glb" +:+ nl; "C0DE"]) w_empty in
  result_of o = Some 0 ∧ exit_status o = 0
  ∧ drop 4 (printed (trace (final_world o)))
    = [String newline "=== SUMMARY ==="; "GLB ok: 3 | GLB failed: 0";
       "PNG ok: 12 | PNG failed: 0"].
Proof. by vm_compute. Qed.

(** Two identifiers, the model of one of them unknown to the service: its
    task stops after the model, the other one gets its four images, and the
    exit code is 2 although no image failed. *)
Example scenario_one_model_missing :
  let o := main (sequential id) (service_models ["0a1b"]) demo_args
             (Lines ["0a1b" +:+ nl; "00ff" +:+ nl]) w_empty in
  result_of o = Some 2 ∧ exit_status o = 2
  ∧ drop 3 (printed (trace (final_world o)))
    = [String newline "=== SUMMARY ==="; "GLB ok: 1 | GLB failed: 1";
       "PNG ok: 4 | PNG failed: 0"].
Proof. by vm_compute. Qed.

(** One identifier whose model is answered by 404: no image is attempted,
    one model failure, exit code 2. *)
Example scenario_model_404 :
  let o := main (sequential id) service_404 demo_args
             (Lines ["0a1b" +:+ nl]) w_empty in
  result_of o = Some 2
  ∧ fetch_paths (trace (final_world o)) = [glb_path "out" "0a1b"]
  ∧ printed (trace (final_world o))
    = ["Avatars: 1 | Threads: 2 | Bad lines: 0";
       "[0a1b] GLB FAILED (http_404)";
       String newline "=== SUMMARY ==="; "GLB ok: 0 | GLB failed: 1";
       "PNG ok: 0 | PNG failed: 0"].
Proof. by vm_compute. Qed.


(** * Further properties *)

(** ** The parser *)

Lemma append_nil_r (s : string) : s +:+ "" = s.
Proof.
  induction s as [|c s IH]; [done|].
  change (String c (s +:+ "") = String c s). by rewrite IH.
Qed.

Lemma parse_id_of_hex i ext :
  hex_id i → ext = "" ∨ ext = ".glb" → parse_id (i +:+ ext) = Some i.
Proof.
  intros [Hne Hh] Hext.
  pose proof (parse_id_wrapped "" "" "" i ext "" "" "") as H.
  unfold wrap in H. change ("" +:+ ?x) with x in H.
  rewrite !append_nil_r in H. by apply H.
Qed.

(** X1. Parsing is idempotent: an identifier that [parse_id] returned for
    some line is parsed to itself, bare or with the suffix [.glb]. *)
Theorem X1_parse_id_idempotent line i :
  parse_id line = Some i →
  parse_id i = Some i ∧ parse_id (i +:+ ".glb") = Some i.
Proof.
  unfold parse_id at 1. destruct (nonempty _); [|done]. simpl.
  intros H. destruct (ID_OR_GLB_RE_match_hex _ _ H) as [Hi _]. split.
  - rewrite <- (append_nil_r i) at 1. apply parse_id_of_hex; auto.
  - apply parse_id_of_hex; auto.
Qed.

Lemma X1_parse_id_idempotent_witness :
  parse_id "c0de" = Some "c0de" ∧ parse_id ("c0de" +:+ ".glb") = Some "c0de".
Proof.
  apply (X1_parse_id_idempotent (String dquote "c0de.glb" +:+ String dquote nl)).
  reflexivity.
Defined.

Lemma parse_step_from ids bad line :
  parse_step (ids, bad) line
  = (ids ++ (parse_step ([], 0) line).1, bad + (parse_step ([], 0) line).2).
Proof.
  unfold parse_step. destruct (parse_id line) as [i|].
  - destruct (nonempty i); simpl; [by rewrite Z.add_0_r|].
    destruct (nonempty _); simpl; by rewrite ?app_nil_r, ?Z.add_0_r.
  - destruct (nonempty _); simpl; by rewrite ?app_nil_r, ?Z.add_0_r.
Qed.

Lemma parse_fold_from lines :
  ∀ ids bad,
    fold_left parse_step lines (ids, bad)
    = (ids ++ (parse_lines lines).1, bad + (parse_lines lines).2).
Proof.
  induction lines as [|line lines IH]; intros ids bad.
  - simpl. by rewrite app_nil_r, Z.add_0_r.
  - unfold parse_lines. cbn [fold_left]. rewrite (parse_step_from ids bad).
    destruct (parse_step ([], 0) line) as [ids1 bad1]. cbn [fst snd].
    rewrite IH, (IH ids1 bad1). cbn [fst snd].
    by rewrite app_assoc, Z.add_assoc.
Qed.

(** X2. The parsing loop goes line by line without looking back: the
    identifiers of a file made of two parts are those of the first part
    followed by those of the second, repeated identifiers included, and the
    bad-line counts add up. *)
Theorem X2_parse_lines_app (lines1 lines2 : list string) :
  parse_lines (lines1 ++ lines2)
  = ((parse_lines lines1).1 ++ (parse_lines lines2).1,
     (parse_lines lines1).2 + (parse_lines lines2).2).
Proof.
  unfold parse_lines at 1. rewrite fold_left_app.
  fold (parse_lines lines1). destruct (parse_lines lines1) as [ids1 bad1].
  by rewrite parse_fold_from.
Qed.

Lemma parse_id_non_blank line i : parse_id line = Some i → non_blank line = true.
Proof.
  unfold parse_id, non_blank. destruct (strip is_space line); [done|done].
Qed.

(** What one line does to the empty state. *)
Lemma parse_step_single line :
  (∃ i, hex_id i ∧ non_blank line = true ∧ parse_step ([], 0) line = ([i], 0))
  ∨ (non_blank line = true ∧ parse_step ([], 0) line = ([], 1))
  ∨ (non_blank line = false ∧ parse_step ([], 0) line = ([], 0)).
Proof.
  unfold parse_step. destruct (parse_id line) as [i|] eqn:Hp.
  - pose proof (parse_id_non_blank _ _ Hp) as Hnb.
    unfold parse_id in Hp. destruct (nonempty (strip _ (strip _ _))); [|done].
    destruct (ID_OR_GLB_RE_match_hex _ _ Hp) as [[Hne Hh] _].
    rewrite Hne. left. exists i. by repeat split.
  - fold (non_blank line). destruct (non_blank line); auto.
Qed.

Lemma parse_lines_cons line lines :
  parse_lines (line :: lines)
  = ((parse_step ([], 0) line).1 ++ (parse_lines lines).1,
     (parse_step ([], 0) line).2 + (parse_lines lines).2).
Proof.
  unfold parse_lines at 1. cbn [fold_left].
  destruct (parse_step ([], 0) line) as [ids1 bad1]. apply parse_fold_from.
Qed.

Lemma parse_lines_hex (lines : list string) :
  Forall hex_id (parse_lines lines).1
  ∧ 0 ≤ (parse_lines lines).2
  ∧ Z.of_nat (length (parse_lines lines).1) + (parse_lines lines).2
    = Z.of_nat (length (List.filter non_blank lines)).
Proof.
  induction lines as [|line lines (IHh & IHb & IHc)].
  - by repeat split.
  - rewrite parse_lines_cons. cbn [List.filter].
    destruct (parse_step_single line)
      as [(i & Hi & -> & ->)|[(-> & ->)|(-> & ->)]]; cbn [fst snd app length].
    + split; [by constructor|]. split; lia.
    + split; [done|]. split; lia.
    + by repeat split.
Qed.

(** X3. Every parsed identifier is a non-empty hexadecimal string, the
    bad-line count is not negative, and each line that is not blank is
    accounted for exactly once: it gave an identifier or it was counted as
    bad. *)
Theorem X3_parse_lines_accounts (lines : list string) :
  Forall hex_id (parse_lines lines).1
  ∧ 0 ≤ (parse_lines lines).2
  ∧ Z.of_nat (length (parse_lines lines).1) + (parse_lines lines).2
    = Z.of_nat (length (List.filter non_blank lines)).
Proof. apply parse_lines_hex. Qed.

(** ** The layout of the output *)

Lemma append_assoc (a b c : string) : (a +:+ b) +:+ c = a +:+ b +:+ c.
Proof.
  induction a as [|x a IH]; [done|].
  change (String x ((a +:+ b) +:+ c) = String x (a +:+ b +:+ c)). by rewrite IH.
Qed.

Lemma append_inv_head (a b c : string) : a +:+ b = a +:+ c → b = c.
Proof.
  induction a as [|x a IH]; [done|]. intros H.
  change (String x (a +:+ b) = String x (a +:+ c)) in H.
  injection H as H. auto.
Qed.

Lemma append_eq_length (a b c d : string) :
  a +:+ b = c +:+ d → String.length a = String.length c → a = c ∧ b = d.
Proof.
  revert c. induction a as [|x a IH]; intros [|y c] H Hl; try done.
  change (String x (a +:+ b) = String y (c +:+ d)) in H.
  injection H as -> H. injection Hl as Hl.
  by destruct (IH _ H Hl) as [-> ->].
Qed.

Lemma append_inv_tail (a b c : string) : a +:+ c = b +:+ c → a = b.
Proof.
  intros H. apply (append_eq_length a c b c H).
  apply (f_equal String.length) in H. rewrite !length_append in H. lia.
Qed.

Lemma last_char_app (a b : string) :
  nonempty b = true → last_char (a +:+ b) = last_char b.
Proof.
  intros Hb. induction a as [|x a IH]; [done|].
  change (last_char (String x (a +:+ b)) = last_char b).
  destruct (a +:+ b) as [|y s] eqn:Hab.
  - destruct a, b; done.
  - by rewrite <- IH.
Qed.

Lemma endswith_last c s : endswith_char c s = true → last_char s = Some c.
Proof.
  induction s as [|x s IH]; [done|]. destruct s as [|y s].
  - simpl. by intros ->%Ascii.eqb_eq.
  - intros H. by apply IH.
Qed.

Lemma starts_slash_app (a b : string) :
  startswith "/" (a +:+ b)
  = if nonempty a then startswith "/" a else startswith "/" b.
Proof.
  destruct a as [|x a]; [done|]. unfold startswith.
  change (String x a +:+ b) with (String x (a +:+ b)).
  cbn [String.prefix nonempty].
  destruct (ascii_dec "/" x); [by destruct (a +:+ b), a|done].
Qed.

Lemma prefix_app (a b : string) : startswith a (a +:+ b) = true.
Proof.
  unfold startswith. induction a as [|x a IH]; [by destruct b|].
  change (String.prefix (String x a) (String x (a +:+ b)) = true).
  cbn [String.prefix]. by destruct (ascii_dec x x).
Qed.

(** The two calls of [os.path.join] put the same thing before any two
    file names that start alike. *)
Lemma path_join_common a b b' :
  startswith "/" b = startswith "/" b' →
  ∃ pre, os.path_join a b = pre +:+ b ∧ os.path_join a b' = pre +:+ b'.
Proof.
  intros H. unfold os.path_join. rewrite <- H.
  destruct (startswith "/" b); [by exists ""|].
  destruct (negb (nonempty a) || endswith_char "/" a); [by exists a|].
  exists (a +:+ "/"). by rewrite !append_assoc.
Qed.

Lemma file_names_start_alike avatar_id x y :
  startswith "/" x = false → startswith "/" y = false →
  startswith "/" (avatar_id +:+ x) = startswith "/" (avatar_id +:+ y).
Proof. intros Hx Hy. rewrite !starts_slash_app, Hx, Hy. by destruct (nonempty _). Qed.

Ltac names_alike :=
  apply file_names_start_alike; rewrite ?starts_slash_app; reflexivity.

Lemma png_path_inj out_root avatar_id p q :
  png_path out_root avatar_id p = png_path out_root avatar_id q → p = q.
Proof.
  unfold png_path.
  pose proof (path_join_common (os.path_join out_root avatar_id)
              (avatar_id +:+ "__pose-" +:+ p +:+ "__expr-" +:+ EXPRESSION +:+ ".png")
              (avatar_id +:+ "__pose-" +:+ q +:+ "__expr-" +:+ EXPRESSION +:+ ".png")
              ltac:(names_alike))
    as (pre & -> & ->).
  intros H. do 3 apply append_inv_head in H. by apply append_inv_tail in H.
Qed.

Lemma glb_path_not_png out_root avatar_id p :
  glb_path out_root avatar_id ≠ png_path out_root avatar_id p.
Proof.
  unfold glb_path, png_path.
  pose proof (path_join_common (os.path_join out_root avatar_id)
              (avatar_id +:+ ".glb")
              (avatar_id +:+ "__pose-" +:+ p +:+ "__expr-" +:+ EXPRESSION +:+ ".png")
              ltac:(names_alike))
    as (pre & -> & ->).
  intros H. do 2 apply append_inv_head in H. done.
Qed.

Lemma path_join_last a b :
  nonempty b = true → last_char (os.path_join a b) = last_char b.
Proof.
  intros Hb. unfold os.path_join. destruct (startswith "/" b); [done|].
  destruct (_ || _); rewrite ?last_char_app; try done.
Qed.

(** A file of the task ends in [b] or [g], a temporary path in [t]. *)
Lemma task_path_last out_root avatar_id p :
  p ∈ task_paths out_root avatar_id →
  last_char p = Some "b"%char ∨ last_char p = Some "g"%char.
Proof.
  unfold task_paths. intros [->|(pose & -> & _)%list_elem_of_fmap]%elem_of_cons.
  - left. unfold glb_path. rewrite path_join_last by by destruct avatar_id.
    by apply last_char_app.
  - right. unfold png_path.
    rewrite path_join_last by by destruct avatar_id.
    rewrite <- !append_assoc. by apply last_char_app.
Qed.

Lemma tmp_of_last p : last_char (tmp_of p) = Some "t"%char.
Proof. unfold tmp_of. by apply last_char_app. Qed.

Lemma NoDup_POSES : NoDup POSES.
Proof. apply (bool_decide_unpack _). by vm_compute. Qed.

Lemma task_paths_NoDup (out_root avatar_id : string) :
  NoDup (task_paths out_root avatar_id ++ task_temps out_root avatar_id).
Proof.
  apply NoDup_app. split; [|split].
  - unfold task_paths. apply NoDup_cons. split.
    + intros (pose & H & _)%list_elem_of_fmap. by apply glb_path_not_png in H.
    + apply (NoDup_fmap_2_strong (png_path out_root avatar_id)); [|apply NoDup_POSES].
      intros p q _ _. apply png_path_inj.
  - intros p Hp (q & -> & Hq)%list_elem_of_fmap.
    pose proof (tmp_of_last q) as Ht.
    destruct (task_path_last _ _ _ Hp) as [H|H]; congruence.
  - unfold task_temps.
    apply (NoDup_fmap_2_strong tmp_of).
    + intros p q _ _. unfold tmp_of. apply append_inv_tail.
    + unfold task_paths. apply NoDup_cons. split.
      * intros (pose & H & _)%list_elem_of_fmap. by apply glb_path_not_png in H.
      * apply (NoDup_fmap_2_strong (png_path out_root avatar_id));
          [|apply NoDup_POSES].
        intros p q _ _. apply png_path_inj.
Qed.

(** X4. The five files of an avatar and their five temporary paths are ten
    different paths, whatever the output directory and the identifier: no
    two fetches of one task write to the same place. *)
Theorem X4_task_paths_distinct (out_root avatar_id : string) :
  NoDup (task_paths out_root avatar_id ++ task_temps out_root avatar_id).
Proof. apply task_paths_NoDup. Qed.

Lemma hex_id_no_slash i : hex_id i → startswith "/" i = false.
Proof.
  intros [Hne Hh]. destruct i as [|c i]; [done|]. simpl in Hh.
  apply andb_prop in Hh as [Hc _]. unfold startswith. cbn [String.prefix].
  destruct (ascii_dec "/" c) as [<-|]; [by vm_compute in Hc|done].
Qed.

Lemma hex_id_last i : hex_id i → ∃ c, last_char i = Some c ∧ is_hex c = true.
Proof.
  intros [Hne Hh]. induction i as [|c i IH]; [done|]. simpl in Hh.
  apply andb_prop in Hh as [Hc Hi]. destruct i as [|d i]; [by exists c|].
  by apply IH.
Qed.

(** The directory of an identifier and where its files go. *)
Lemma avatar_dir_shape out_root i :
  hex_id i → os.path_join out_root i = root_prefix out_root +:+ i.
Proof.
  intros Hi. unfold os.path_join, root_prefix. rewrite hex_id_no_slash by done.
  destruct (_ || _); [done|]. by rewrite append_assoc.
Qed.

Lemma avatar_file_shape out_root i name :
  hex_id i → startswith "/" name = false →
  os.path_join (os.path_join out_root i) name
  = root_prefix out_root +:+ i +:+ "/" +:+ name.
Proof.
  intros Hi Hn. rewrite (avatar_dir_shape out_root i) by done.
  unfold os.path_join at 1.
  rewrite Hn. destruct Hi as [Hne Hh].
  destruct (hex_id_last i (conj Hne Hh)) as (c & Hc & Hcx).
  replace (nonempty (root_prefix out_root +:+ i)) with true
    by (by destruct (root_prefix out_root), i).
  destruct (endswith_char "/" (root_prefix out_root +:+ i)) eqn:He.
  - apply endswith_last in He. rewrite last_char_app in He by done.
    rewrite Hc in He. injection He as ->. by vm_compute in Hcx.
  - simpl. by rewrite !append_assoc.
Qed.

(** Every path of the footprint of an identifier is the directory prefix,
    the identifier, and then nothing or something that starts with a
    slash. *)
Lemma footprint_shape out_root i p :
  hex_id i → p ∈ task_footprint out_root i →
  ∃ t, p = root_prefix out_root +:+ i +:+ t ∧ head_not is_hex t.
Proof.
  intros Hi. unfold task_footprint.
  assert (Hfile : ∀ q, q ∈ task_paths out_root i →
            ∃ t, q = root_prefix out_root +:+ i +:+ "/" +:+ t).
  { unfold task_paths.
    intros q [->|(pose & -> & _)%list_elem_of_fmap]%elem_of_cons.
    - unfold glb_path. rewrite avatar_file_shape; eauto.
      rewrite starts_slash_app, (hex_id_no_slash i Hi).
      by destruct (nonempty i).
    - unfold png_path. rewrite avatar_file_shape; eauto.
      rewrite starts_slash_app, (hex_id_no_slash i Hi).
      by destruct (nonempty i). }
  intros [->|[Hp|(q & -> & Hq)%list_elem_of_fmap]%elem_of_app]%elem_of_cons.
  - exists "". by rewrite avatar_dir_shape, append_nil_r.
  - destruct (Hfile p Hp) as (t & ->). by exists ("/" +:+ t).
  - destruct (Hfile q Hq) as (t & ->). exists ("/" +:+ t +:+ ".part").
    unfold tmp_of. by rewrite !append_assoc.
Qed.

(** X5. Two different identifiers, as the parser gives them, share no
    path: neither the directory, nor a file, nor a temporary path of the one
    is among those of the other.  Tasks for different avatars write to
    different places. *)
Theorem X5_footprints_disjoint (out_root i j p : string) :
  hex_id i → hex_id j → i ≠ j →
  p ∈ task_footprint out_root i → p ∉ task_footprint out_root j.
Proof.
  intros Hi Hj Hne Hpi Hpj.
  destruct (footprint_shape _ _ _ Hi Hpi) as (t & -> & Ht).
  destruct (footprint_shape _ _ _ Hj Hpj) as (u & H & Hu).
  apply append_inv_head in H. apply Hne.
  pose proof (span_hex_app i t (proj2 Hi) Ht) as Hsi.
  pose proof (span_hex_app j u (proj2 Hj) Hu) as Hsj.
  rewrite H in Hsi. congruence.
Qed.

Lemma X5_footprints_disjoint_witness :
  glb_path "out" "0a1b" ∉ task_footprint "out" "0a1".
Proof.
  apply (X5_footprints_disjoint "out" "0a1b" "0a1"); try done.
  unfold task_footprint. apply list_elem_of_further. by left.
Defined.

Lemma footprint_under_root out_root i p :
  hex_id i → p ∈ task_footprint out_root i → startswith out_root p = true.
Proof.
  intros Hi Hp. destruct (footprint_shape _ _ _ Hi Hp) as (t & -> & _).
  unfold root_prefix. destruct (_ || _).
  - apply prefix_app.
  - rewrite append_assoc. apply prefix_app.
Qed.

(** X6. The paths of a parsed identifier stay under the output directory:
    the directory of the avatar, its files and their temporary paths all
    start with the output directory given on the command line. *)
Theorem X6_paths_under_output_dir (out_root line i p : string) :
  parse_id line = Some i →
  p ∈ task_footprint out_root i → startswith out_root p = true.
Proof.
  intros Hparse Hp. apply (footprint_under_root out_root i); [|done].
  unfold parse_id in Hparse. destruct (nonempty _); [|done].
  by destruct (ID_OR_GLB_RE_match_hex _ _ Hparse).
Qed.

Lemma X6_paths_under_output_dir_witness :
  startswith "some/where" (tmp_of (glb_path "some/where" "c0de")) = true.
Proof.
  apply (X6_paths_under_output_dir "some/where" (" c0de.glb" +:+ nl) "c0de").
  - reflexivity.
  - unfold task_footprint, task_temps. apply list_elem_of_further.
    apply elem_of_app. right. apply list_elem_of_fmap_2. by left.
Defined.

(** ** One fetch *)

(** The events of a call: the mark of the attempt, then one GET unless the
    destination was there already. *)
Lemma download_file_events E url out_path timeout w :
  trace (final_world (download_file E url out_path timeout w))
  = trace w ++ EvFetch url out_path
               :: (if present (fs w) out_path then [] else [EvGet url]).
Proof.
  destruct (download_file_cases E url out_path timeout w) as [-> | | | |];
    simpl; try done; by rewrite H.
Qed.

(** A call changes nothing but its destination and its temporary path. *)
Lemma download_file_frame E url out_path timeout w p :
  p ≠ out_path → p ≠ tmp_of out_path →
  fs (final_world (download_file E url out_path timeout w)) !! p = fs w !! p.
Proof.
  intros Ho Ht.
  destruct (download_file_cases E url out_path timeout w)
    as [| | | |k f' e _ Hk _]; simpl; try done.
  - by rewrite lookup_insert_ne, lookup_delete_ne.
  - by rewrite lookup_delete_ne.
  - destruct (try_raises_fs _ _ _ _ _ _ _ Hk) as [->|[d ->]]; [done|].
    by rewrite lookup_insert_ne.
Qed.

(** What a successful call leaves at its destination. *)
Lemma download_file_success E url out_path timeout w reason w' :
  download_file E url out_path timeout w = Return (true, reason) w' →
  reason = "exists" ∧ present (fs w) out_path = true ∧ fs w' = fs w
  ∨ reason = "downloaded" ∧ present (fs w) out_path = false
    ∧ ∃ cs, net E (trace w ++ [EvFetch url out_path]) url timeout
              = Response 200 cs None
            ∧ fs w' !! out_path = Some (File (concat cs))
            ∧ fs w' !! tmp_of out_path = None.
Proof.
  intros H. pose proof (tmp_of_ne out_path) as Hne.
  pose proof (download_file_cases E url out_path timeout w) as Hc.
  rewrite H in Hc. inversion Hc; subst; [by left|]. right.
  repeat split; try done. exists cs. simpl.
  by rewrite lookup_insert_eq, lookup_insert_ne, lookup_delete_eq.
Qed.

Lemma present_file f p d :
  f !! p = Some (File d) → present f p = bool_decide (d ≠ []).
Proof. unfold present. intros ->. by destruct d. Qed.

(** X7. A fetch, however it ends, touches nothing but its destination and
    its temporary path: every other path of the file system holds what it
    held before.  Fetches for different destinations do not disturb each
    other. *)
Theorem X7_fetch_frame E url out_path timeout w p :
  p ≠ out_path → p ≠ tmp_of out_path →
  fs (final_world (download_file E url out_path timeout w)) !! p = fs w !! p.
Proof. apply download_file_frame. Qed.

Lemma X7_fetch_frame_witness :
  fs (final_world (download_file service_ok (glb_url "0a1b")
                     (glb_path "out" "0a1b") 60 w_full))
    !! png_path "out" "0a1b" "relaxed"
  = fs w_full !! png_path "out" "0a1b" "relaxed".
Proof. apply X7_fetch_frame; by vm_compute. Defined.

(** X8. A fetch never asks twice: its events are the mark of the attempt
    followed by exactly one GET request, or by none when the destination
    was already there; it prints nothing. *)
Theorem X8_fetch_one_request E url out_path timeout w :
  ∃ evs,
    trace (final_world (download_file E url out_path timeout w))
    = trace w ++ evs
    ∧ fetch_paths evs = [out_path]
    ∧ get_urls evs = (if present (fs w) out_path then [] else [url])
    ∧ printed evs = [].
Proof.
  eexists. split; [apply download_file_events|].
  by destruct (present (fs w) out_path).
Qed.

(** X9. Once a fetch has downloaded a body that is not empty, every later
    fetch to the same destination, from whatever URL, is skipped: it returns
    [(True, "exists")] and sends no request, as long as the file is left
    alone. *)
Theorem X9_fetch_then_skip E url out_path timeout w cs w' E2 url2 timeout2 :
  download_file E url out_path timeout w = Return (true, "downloaded") w' →
  net E (trace w ++ [EvFetch url out_path]) url timeout = Response 200 cs None →
  concat cs ≠ [] →
  download_file E2 url2 out_path timeout2 w'
  = Return (true, "exists") (World (fs w') (trace w' ++ [EvFetch url2 out_path])).
Proof.
  intros Hrun Hnet Hbody.
  destruct (download_file_success _ _ _ _ _ _ _ Hrun)
    as [(? & _)|(_ & _ & cs' & Hnet' & Hout & _)]; [done|].
  rewrite Hnet in Hnet'. injection Hnet' as <-.
  apply download_file_present. rewrite (present_file _ _ _ Hout).
  by apply bool_decide_eq_true_2.
Qed.

Lemma X9_fetch_then_skip_witness :
  let w' := final_world (download_file service_ok (glb_url "0a1b")
                           (glb_path "out" "0a1b") 60 w_stale) in
  download_file service_404 "elsewhere" (glb_path "out" "0a1b") 5 w'
  = Return (true, "exists")
      (World (fs w') (trace w' ++ [EvFetch "elsewhere" (glb_path "out" "0a1b")])).
Proof.
  intros w'.
  apply (X9_fetch_then_skip service_ok (glb_url "0a1b") (glb_path "out" "0a1b")
           60 w_stale sample_body w');
    [vm_compute; reflexivity..|by vm_compute].
Defined.

(** X10. A 200 response with an empty body counts as a download, but what it
    leaves is a zero-size file, and a zero-size file is not taken as
    present: the next fetch to that destination sends a request again. *)
Theorem X10_empty_body_is_fetched_again
    E url out_path timeout w cs w' E2 url2 timeout2 :
  download_file E url out_path timeout w = Return (true, "downloaded") w' →
  net E (trace w ++ [EvFetch url out_path]) url timeout = Response 200 cs None →
  concat cs = [] →
  fs w' !! out_path = Some (File [])
  ∧ present (fs w') out_path = false
  ∧ trace (final_world (download_file E2 url2 out_path timeout2 w'))
    = trace w' ++ [EvFetch url2 out_path; EvGet url2].
Proof.
  intros Hrun Hnet Hbody.
  destruct (download_file_success _ _ _ _ _ _ _ Hrun)
    as [(? & _)|(_ & _ & cs' & Hnet' & Hout & _)]; [done|].
  rewrite Hnet in Hnet'. injection Hnet' as <-. rewrite Hbody in Hout.
  assert (Hp : present (fs w') out_path = false)
    by by rewrite (present_file _ _ _ Hout).
  split; [done|]. split; [done|]. by rewrite download_file_events, Hp.
Qed.

Lemma X10_empty_body_is_fetched_again_witness :
  let out_path := glb_path "out" "0a1b" in
  let w' := final_world (download_file service_empty_body (glb_url "0a1b")
                           out_path 60 w_empty) in
  fs w' !! out_path = Some (File [])
  ∧ present (fs w') out_path = false
  ∧ trace (final_world (download_file service_ok (glb_url "0a1b") out_path 60 w'))
    = trace w' ++ [EvFetch (glb_url "0a1b") out_path; EvGet (glb_url "0a1b")].
Proof.
  intros out_path w'.
  apply (X10_empty_body_is_fetched_again service_empty_body (glb_url "0a1b")
           out_path 60 w_empty [[]; []] w'); by vm_compute.
Defined.

(** ** One avatar task *)

Lemma fetch_paths_app evs1 evs2 :
  fetch_paths (evs1 ++ evs2) = fetch_paths evs1 ++ fetch_paths evs2.
Proof. apply omap_app. Qed.

Lemma get_urls_app evs1 evs2 :
  get_urls (evs1 ++ evs2) = get_urls evs1 ++ get_urls evs2.
Proof. apply omap_app. Qed.

Lemma printed_app evs1 evs2 :
  printed (evs1 ++ evs2) = printed evs1 ++ printed evs2.
Proof. apply omap_app. Qed.

(** The events of the loop over the poses, however it ends. *)
Lemma pose_loop_events E avatar_id out_root base_params timeout poses :
  ∀ r w,
    let o := pose_loop E avatar_id out_root base_params timeout poses r w in
    ∃ evs,
      trace (final_world o) = trace w ++ evs
      ∧ fetch_paths evs `prefix_of` map (png_path out_root avatar_id) poses
      ∧ (is_Some (result_of o) →
         fetch_paths evs = map (png_path out_root avatar_id) poses)
      ∧ (length (get_urls evs) ≤ length (fetch_paths evs))%nat
      ∧ printed evs = [].
Proof.
  induction poses as [|pose rest IH]; intros r w o; unfold o; clear o.
  - exists []. rewrite pose_loop_nil, app_nil_r. by repeat split.
  - rewrite pose_loop_cons.
    destruct (png_url avatar_id base_params pose) as [url|].
    2:{ exists []. simpl. rewrite app_nil_r. split; [done|].
        split; [apply prefix_nil|]. split; [by intros [? ?]|].
        split; [lia|done]. }
    assert (∃ first,
      trace (final_world (download_file E url
                            (png_path out_root avatar_id pose) timeout w))
      = trace w ++ first
      ∧ fetch_paths first = [png_path out_root avatar_id pose]
      ∧ (length (get_urls first) ≤ 1)%nat ∧ printed first = [])
      as (first & Hev & Hf & Hg & Hp).
    { eexists. split; [apply download_file_events|].
      destruct (present _ _); simpl; repeat split; lia. }
    destruct (download_file _ _ _ _ _) as [[ok reason] w1|e w1]; simpl in Hev.
    + destruct (IH (bump ok r) w1) as (evs & Htr & Hpre & Hall & Hlen & Hpr).
      exists (first ++ evs).
      rewrite Htr, Hev, <- app_assoc, fetch_paths_app, get_urls_app,
        printed_app, Hf, Hp, Hpr, !length_app. simpl.
      split; [done|]. split; [by apply prefix_cons|].
      split; [intros Hs; by rewrite Hall|]. split; [lia|done].
    + exists first. simpl. rewrite Hf.
      split; [done|]. split; [apply prefix_cons, prefix_nil|].
      split; [by intros [? ?]|]. split; [simpl; lia|done].
Qed.

(** The loop over the poses changes nothing but the image files and their
    temporary paths. *)
Lemma pose_loop_frame E avatar_id out_root base_params timeout poses p :
  (∀ pose, pose ∈ poses →
     p ≠ png_path out_root avatar_id pose
     ∧ p ≠ tmp_of (png_path out_root avatar_id pose)) →
  ∀ r w,
    fs (final_world (pose_loop E avatar_id out_root base_params timeout
                       poses r w)) !! p
    = fs w !! p.
Proof.
  induction poses as [|pose rest IH]; intros Hp r w; [done|].
  rewrite pose_loop_cons.
  destruct (png_url avatar_id base_params pose) as [url|]; [|done].
  pose proof (download_file_frame E url
                (png_path out_root avatar_id pose) timeout w p) as Hfr.
  destruct (Hp pose ltac:(by left)) as [H1 H2].
  destruct (download_file _ _ _ _ _) as [[ok reason] w1|e w1]; simpl in Hfr.
  - rewrite IH; [by apply Hfr|]. intros q Hq. apply Hp. by right.
  - by apply Hfr.
Qed.

Lemma process_avatar_shape E avatar_id out_root base_params timeout w r w' :
  process_avatar E avatar_id out_root base_params timeout w = Return r w' →
  well_formed_result avatar_id r.
Proof.
  rewrite process_avatar_run.
  destruct (safe_mkdir _ _ _) as [[] w1|]; [|done].
  destruct (download_file _ _ _ _ _) as [[[] reason] w2|] eqn:Hd; [|by intros [= <- _]; split; [|left; eauto]|done].
  intros Hrun.
  destruct (pose_loop_chain _ _ _ _ _ _ _ _ _ _ Hrun)
    as (oks & Hch & Ha & Hg & Hok & Hfail).
  pose proof (fetch_chain_length _ _ _ _ _ _ _ _ _ Hch) as Hlen.
  pose proof (n_ok_fail_length oks) as Hsum. rewrite Hlen in Hsum.
  simpl in *. split; [done|]. right. unfold n_ok, n_fail in *.
  split; [|lia].
  rewrite Hg. destruct (download_file_ok_reason _ _ _ _ _ _ _ Hd) as [-> | ->]; auto.
Qed.

(** X11. Every result the avatar task returns is for its identifier and
    has one of two shapes: a failed model, marked [FAILED (reason)], with
    both image counts at zero; or a model that exists or was downloaded,
    with image counts that are not negative and add up to 4. *)
Theorem X11_result_shape E avatar_id out_root base_params timeout w r w' :
  process_avatar E avatar_id out_root base_params timeout w = Return r w' →
  well_formed_result avatar_id r.
Proof. apply process_avatar_shape. Qed.

Lemma X11_result_shape_witness :
  well_formed_result "0a1b" (mkResult "0a1b" (Some "downloaded") 0 4).
Proof.
  apply (X11_result_shape (service_failing "0a1b" demo_params POSES) "0a1b"
           "out" demo_params 60 w_empty _
           (final_world (process_avatar
                           (service_failing "0a1b" demo_params POSES) "0a1b"
                           "out" demo_params 60 w_empty))).
  vm_compute; reflexivity.
Defined.

(** What a task does outside, in the order it does it. *)
Lemma process_avatar_events E avatar_id out_root base_params timeout w :
  let o := process_avatar E avatar_id out_root base_params timeout w in
  ∃ evs,
    trace (final_world o) = trace w ++ evs
    ∧ fetch_paths evs `prefix_of` task_paths out_root avatar_id
    ∧ (length (get_urls evs) ≤ length (fetch_paths evs) ≤ 5)%nat
    ∧ printed evs = []
    ∧ (∀ r w', o = Return r w' →
         fetch_paths evs
         = if model_failed r then [glb_path out_root avatar_id]
           else task_paths out_root avatar_id).
Proof.
  intros o. unfold o. clear o. rewrite process_avatar_run.
  pose proof (safe_mkdir_cases E (os.path_join out_root avatar_id) w) as Hmk.
  destruct (safe_mkdir _ _ _) as [[] w1|e w1].
  2:{ destruct Hmk as (-> & _). exists []. rewrite app_nil_r. simpl.
      split; [done|]. split; [apply prefix_nil|]. split; [lia|done]. }
  destruct Hmk as (Htr & _).
  assert (∃ first,
    trace (final_world (download_file E (glb_url avatar_id)
                          (glb_path out_root avatar_id) timeout w1))
    = trace w ++ first
    ∧ fetch_paths first = [glb_path out_root avatar_id]
    ∧ (length (get_urls first) ≤ 1)%nat ∧ printed first = [])
    as (first & Hev & Hf & Hg & Hp).
  { eexists. rewrite <- Htr. split; [apply download_file_events|].
    destruct (present _ _); simpl; repeat split; lia. }
  destruct (download_file _ _ _ _ _) as [[ok reason] w2|e w2] eqn:Hd;
    simpl in Hev.
  - destruct ok.
    + destruct (pose_loop_events E avatar_id out_root base_params timeout POSES
                  (mkResult avatar_id (Some reason) 0 0) w2)
        as (evs & Htr2 & Hpre & Hall & Hlen & Hpr).
      pose proof (prefix_length _ _ Hpre) as Hl. rewrite length_map in Hl.
      exists (first ++ evs).
      rewrite Htr2, Hev, <- app_assoc, fetch_paths_app, get_urls_app,
        printed_app, Hf, Hp, Hpr, !length_app.
      split; [done|]. split; [by apply prefix_cons|].
      split; [simpl in *; lia|]. split; [done|].
      intros r w' Hrun. rewrite Hrun in Hall. rewrite Hall by by eexists.
      apply pose_loop_chain in Hrun as (_ & _ & _ & Hglb & _).
      unfold model_failed. rewrite Hglb. simpl.
      by destruct (download_file_ok_reason _ _ _ _ _ _ _ Hd) as [-> | ->].
    + exists first. simpl. rewrite Hf.
      split; [done|]. split; [apply prefix_cons, prefix_nil|].
      split; [simpl; lia|]. split; [done|]. by intros r w' [= <- _].
  - exists first. simpl. rewrite Hf.
    split; [done|]. split; [apply prefix_cons, prefix_nil|].
    split; [simpl; lia|]. split; [done|]. done.
Qed.

(** X12. Within one task the model comes first and the poses follow in
    their fixed order, each resource attempted once at most: however the
    task ends, the destinations it attempted are a prefix of its five
    files in that order (the model alone when the model failed, all five
    when a result is returned after a model that did not fail).  It sends
    one GET per attempt at most, five in all at most, and prints nothing. *)
Theorem X12_attempts_in_order E avatar_id out_root base_params timeout w :
  let o := process_avatar E avatar_id out_root base_params timeout w in
  ∃ evs,
    trace (final_world o) = trace w ++ evs
    ∧ fetch_paths evs `prefix_of` task_paths out_root avatar_id
    ∧ (length (get_urls evs) ≤ length (fetch_paths evs) ≤ 5)%nat
    ∧ printed evs = []
    ∧ (∀ r w', o = Return r w' →
         fetch_paths evs
         = if model_failed r then [glb_path out_root avatar_id]
           else task_paths out_root avatar_id).
Proof. apply process_avatar_events. Qed.

Lemma X12_attempts_in_order_witness :
  fetch_paths
    (trace (final_world (process_avatar service_404 "0a1b" "out" demo_params 60
                           w_empty)))
  = [glb_path "out" "0a1b"].
Proof.
  destruct (X12_attempts_in_order service_404 "0a1b" "out" demo_params 60 w_empty)
    as (evs & Htr & _ & _ & _ & Hret).
  rewrite Htr. simpl.
  apply (Hret (mkResult "0a1b" (Some "FAILED (http_404)") 0 0)
           (final_world (process_avatar service_404 "0a1b" "out" demo_params 60
                           w_empty))).
  vm_compute; reflexivity.
Defined.

(** The task changes nothing outside its footprint. *)
Lemma process_avatar_frame E avatar_id out_root base_params timeout w p :
  p ∉ task_footprint out_root avatar_id →
  fs (final_world (process_avatar E avatar_id out_root base_params timeout w))
    !! p
  = fs w !! p.
Proof.
  intros Hp. unfold task_footprint, task_temps, task_paths in Hp.
  assert (Hdir : p ≠ os.path_join out_root avatar_id) by (intros ->; apply Hp; by left).
  assert (Hglb : p ≠ glb_path out_root avatar_id)
    by (intros ->; apply Hp; right; apply elem_of_app; left; by left).
  assert (Hglbt : p ≠ tmp_of (glb_path out_root avatar_id)).
  { intros ->. apply Hp. right. apply elem_of_app. right. by left. }
  assert (Hpng : ∀ pose, pose ∈ POSES →
            p ≠ png_path out_root avatar_id pose
            ∧ p ≠ tmp_of (png_path out_root avatar_id pose)).
  { intros pose Hin. split; intros ->; apply Hp; right; apply elem_of_app.
    - left. right. by apply (list_elem_of_fmap_2 (png_path out_root avatar_id)).
    - right. right.
      apply (list_elem_of_fmap_2 tmp_of).
      by apply (list_elem_of_fmap_2 (png_path out_root avatar_id)). }
  rewrite process_avatar_run.
  pose proof (safe_mkdir_cases E (os.path_join out_root avatar_id) w) as Hmk.
  destruct (safe_mkdir _ _ _) as [[] w1|e w1].
  2:{ by destruct Hmk as (-> & _). }
  destruct Hmk as (_ & _ & _ & Hsame).
  pose proof (download_file_frame E (glb_url avatar_id)
                (glb_path out_root avatar_id) timeout w1 p Hglb Hglbt) as Hfr.
  destruct (download_file _ _ _ _ _) as [[[] reason] w2|e w2]; simpl in Hfr.
  - rewrite pose_loop_frame by done. rewrite Hfr. by apply Hsame.
  - simpl. rewrite Hfr. by apply Hsame.
  - simpl. rewrite Hfr. by apply Hsame.
Qed.



(** X14. Tasks for different identifiers do not touch each other's files:
    a task for one parsed identifier leaves the directory, the files and
    the temporary paths of any other parsed identifier as they were. *)
Theorem X14_tasks_do_not_interfere
    E out_root base_params timeout w (i j p : string) :
  hex_id i → hex_id j → i ≠ j →
  p ∈ task_footprint out_root j →
  fs (final_world (process_avatar E i out_root base_params timeout w)) !! p
  = fs w !! p.
Proof.
  intros Hi Hj Hne Hpj. apply process_avatar_frame. intros Hpi.
  destruct (footprint_shape _ _ _ Hi Hpi) as (t & -> & Ht).
  destruct (footprint_shape _ _ _ Hj Hpj) as (u & H & Hu).
  apply append_inv_head in H. apply Hne.
  pose proof (span_hex_app i t (proj2 Hi) Ht) as Hsi.
  pose proof (span_hex_app j u (proj2 Hj) Hu) as Hsj.
  rewrite H in Hsi. congruence.
Qed.

Lemma X14_tasks_do_not_interfere_witness :
  fs (final_world (process_avatar service_breaking "00ff" "out" demo_params 60
                     w_full))
    !! png_path "out" "0a1b" "standing"
  = fs w_full !! png_path "out" "0a1b" "standing".
Proof.
  apply (X14_tasks_do_not_interfere service_breaking "out" demo_params 60 w_full
           "00ff" "0a1b"); try done.
  apply (bool_decide_unpack _). by vm_compute.
Defined.
(** ** Running a task again *)

(** A fetch neither removes a directory nor puts a file in its place. *)
Lemma download_file_keeps_dir E url out_path timeout w p :
  is_dir (fs w) p = true →
  is_dir (fs (final_world (download_file E url out_path timeout w))) p = true.
Proof.
  assert (Hclean : ∀ f, cleanup_error E f (tmp_of out_path) = None →
            is_dir f (tmp_of out_path) = false).
  { intros f Hc. unfold cleanup_error, is_dir in *.
    destruct (f !! tmp_of out_path) as [[]|]; [done| |done].
    by destruct (os_fault _ _). }
  assert (Hne : ∀ q, is_dir (fs w) p = true → is_dir (fs w) q = false → q ≠ p).
  { intros q Hd Hq ->. congruence. }
  intros Hdir.
  destruct (download_file_cases E url out_path timeout w)
    as [| |cs _ _ _ Htmp _ _ Hout|k f' _ Hk Hc|k f' e _ Hk _]; simpl; try done.
  - unfold is_dir. rewrite lookup_insert_ne, lookup_delete_ne by eauto. done.
  - unfold is_dir. rewrite lookup_delete_ne; [done|].
    apply Hclean in Hc.
    destruct Hk; eauto.
  - destruct Hk; try done.
    all: rewrite is_dir_insert_file; case_decide; [|done].
    all: subst p; congruence.
Qed.

Lemma present_lookup f g p : f !! p = g !! p → present f p = present g p.
Proof. unfold present. by intros ->. Qed.

(** Under a service that sends no empty body, a fetch that succeeds leaves
    its destination present. *)
Lemma download_file_leaves_present E url out_path timeout w reason w' :
  never_empty E →
  download_file E url out_path timeout w = Return (true, reason) w' →
  present (fs w') out_path = true.
Proof.
  intros Hnet Hrun.
  destruct (download_file_success _ _ _ _ _ _ _ Hrun)
    as [(_ & Hp & ->)|(_ & _ & cs & Hcs & Hout & _)]; [done|].
  rewrite (present_file _ _ _ Hout). apply bool_decide_eq_true. eauto.
Qed.

Lemma n_fail_cons ok oks :
  n_fail (ok :: oks) = 0 → ok = true ∧ n_fail oks = 0.
Proof. unfold n_fail. destruct ok; simpl; [done|lia]. Qed.

Lemma png_path_last out_root avatar_id pose :
  last_char (png_path out_root avatar_id pose) = Some "g"%char.
Proof.
  unfold png_path. rewrite path_join_last by by destruct avatar_id.
  rewrite <- !append_assoc. by apply last_char_app.
Qed.

Lemma glb_path_last out_root avatar_id :
  last_char (glb_path out_root avatar_id) = Some "b"%char.
Proof.
  unfold glb_path. rewrite path_join_last by by destruct avatar_id.
  by apply last_char_app.
Qed.

Lemma png_path_not_tmp out_root avatar_id p q :
  png_path out_root avatar_id p ≠ tmp_of (png_path out_root avatar_id q).
Proof.
  intros H. pose proof (tmp_of_last (png_path out_root avatar_id q)) as Ht.
  rewrite <- H, png_path_last in Ht. done.
Qed.

Lemma glb_path_not_tmp out_root avatar_id q :
  glb_path out_root avatar_id ≠ tmp_of (png_path out_root avatar_id q).
Proof.
  intros H. pose proof (tmp_of_last (png_path out_root avatar_id q)) as Ht.
  rewrite <- H, glb_path_last in Ht. done.
Qed.

(** The image fetches of a task that all succeed, under a service that
    sends no empty body, leave every image present, and touch nothing but
    the images and their temporary paths. *)
Lemma fetch_chain_all_present
    E avatar_id out_root base_params timeout poses w oks w' :
  never_empty E →
  fetch_chain E avatar_id out_root base_params timeout poses w oks w' →
  NoDup poses → n_fail oks = 0 →
  (∀ pose, pose ∈ poses →
     present (fs w') (png_path out_root avatar_id pose) = true)
  ∧ (∀ p, (∀ pose, pose ∈ poses →
             p ≠ png_path out_root avatar_id pose
             ∧ p ≠ tmp_of (png_path out_root avatar_id pose)) →
          fs w' !! p = fs w !! p)
  ∧ (∀ p, is_dir (fs w) p = true → is_dir (fs w') p = true).
Proof.
  intros Hnet Hchain.
  induction Hchain as [w|pose rest w url ok reason w1 oks w2 Hu Hd Hchain IH];
    intros Hnd Hfail.
  - split; [|done]. intros pose Hp. by inversion Hp.
  - apply NoDup_cons in Hnd as [Hnotin Hnd].
    apply n_fail_cons in Hfail as [-> Hfail].
    destruct (IH Hnd Hfail) as (IHp & IHf & IHd). split; [|split].
    + intros pose' [->|Hin]%elem_of_cons; [|by apply IHp].
      rewrite (present_lookup _ (fs w1)).
      * by eapply download_file_leaves_present.
      * apply IHf. intros q Hq. split; [|apply png_path_not_tmp].
        intros ->%png_path_inj. done.
    + intros p Hp. rewrite IHf.
      * pose proof (download_file_frame E url
                      (png_path out_root avatar_id pose) timeout w p) as Hfr.
        rewrite Hd in Hfr. apply Hfr; apply Hp; by left.
      * intros q Hq. apply Hp. by right.
    + intros p Hp. apply IHd.
      pose proof (download_file_keeps_dir E url
                    (png_path out_root avatar_id pose) timeout w p Hp) as Hk.
      by rewrite Hd in Hk.
Qed.

(** When its directory and its five files are there, a task with
    parameters that can be encoded returns the model as existing and four
    images, without a request and without a change to the file system. *)
Lemma process_avatar_all_present E avatar_id out_root base_params timeout w :
  encodable base_params →
  is_dir (fs w) (os.path_join out_root avatar_id) = true →
  (∀ p, p ∈ task_paths out_root avatar_id → present (fs w) p = true) →
  ∃ evs,
    process_avatar E avatar_id out_root base_params timeout w
    = Return (mkResult avatar_id (Some "exists") 4 0)
        (World (fs w) (trace w ++ evs))
    ∧ get_urls evs = []
    ∧ fetch_paths evs = task_paths out_root avatar_id.
Proof.
  intros Henc Hdir Hall. rewrite process_avatar_run.
  pose proof (safe_mkdir_cases E (os.path_join out_root avatar_id) w) as Hmk.
  destruct (safe_mkdir _ _ _) as [[] w1|e w1].
  2:{ unfold is_dir, is_file in *. destruct Hmk as (_ & [[Hf _]|[Hf _]]);
      destruct (fs w !! _) as [[]|]; done. }
  destruct Hmk as (_ & _ & Hsame & _). rewrite (Hsame Hdir).
  rewrite download_file_present by (apply Hall; by left).
  destruct (pose_loop_present E avatar_id out_root base_params timeout POSES
              Henc (mkResult avatar_id (Some "exists") 0 0)
              (World (fs w) (trace w ++ [EvFetch (glb_url avatar_id)
                                           (glb_path out_root avatar_id)])))
    as (evs & Hrun & Hget & Hfetch).
  { intros pose Hp. apply Hall. apply list_elem_of_further.
    by apply list_elem_of_fmap_2. }
  eexists (_ :: evs). rewrite Hrun. simpl. rewrite <- app_assoc. simpl.
  by rewrite Hget, Hfetch.
Qed.

(** X15. A task that ended with its model and all four images, under a
    service that never sends an empty body, has left everything in place:
    run again, whatever the service then and with any parameters that can
    be encoded, the task returns the model as existing and four images
    without sending one request and without changing the file system. *)
Theorem X15_second_run_fetches_nothing
    E avatar_id out_root base_params timeout w r w1 E2 base_params2 timeout2 :
  never_empty E →
  process_avatar E avatar_id out_root base_params timeout w = Return r w1 →
  model_failed r = false → png_fail r = 0 →
  encodable base_params2 →
  ∃ evs,
    process_avatar E2 avatar_id out_root base_params2 timeout2 w1
    = Return (mkResult avatar_id (Some "exists") 4 0)
        (World (fs w1) (trace w1 ++ evs))
    ∧ get_urls evs = []
    ∧ fetch_paths evs = task_paths out_root avatar_id.
Proof.
  intros Hnet Hrun Hmodel Hfail Henc.
  rewrite process_avatar_run in Hrun.
  pose proof (safe_mkdir_cases E (os.path_join out_root avatar_id) w) as Hmk.
  destruct (safe_mkdir _ _ _) as [[] wa|e wa]; [|done].
  destruct Hmk as (_ & Hdir & _).
  destruct (download_file _ _ _ _ _) as [[ok reason] wb|e wb] eqn:Hd; [|done].
  destruct ok.
  2:{ injection Hrun as <- <-. by vm_compute in Hmodel. }
  pose proof (download_file_leaves_present _ _ _ _ _ _ _ Hnet Hd) as Hglb.
  pose proof (download_file_keeps_dir E (glb_url avatar_id)
                (glb_path out_root avatar_id) timeout wa _ Hdir) as Hdir2.
  rewrite Hd in Hdir2. simpl in Hdir2.
  apply pose_loop_chain in Hrun as (oks & Hchain & _ & _ & _ & Hnf).
  simpl in Hnf. rewrite Hfail in Hnf.
  destruct (fetch_chain_all_present _ _ _ _ _ _ _ _ _ Hnet Hchain NoDup_POSES)
    as (Hpng & Hframe & Hkeep); [lia|].
  apply process_avatar_all_present; [done|by apply Hkeep|].
  intros p [->|(pose & -> & Hp)%list_elem_of_fmap]%elem_of_cons; [|by apply Hpng].
  rewrite (present_lookup _ (fs wb)); [done|]. apply Hframe.
  intros pose Hp. split; [apply glb_path_not_png|apply glb_path_not_tmp].
Qed.

Lemma X15_second_run_fetches_nothing_witness :
  let w1 := final_world (process_avatar service_ok "0a1b" "out" demo_params 60
                           w_empty) in
  result_of (process_avatar service_404 "0a1b" "out" [] 5 w1)
  = Some (mkResult "0a1b" (Some "exists") 4 0)
  ∧ fs (final_world (process_avatar service_404 "0a1b" "out" [] 5 w1)) = fs w1.
Proof.
  intros w1.
  destruct (X15_second_run_fetches_nothing service_ok "0a1b" "out" demo_params
              60 w_empty (mkResult "0a1b" (Some "downloaded") 4 0) w1
              service_404 [] 5) as (evs & -> & _).
  - intros tr url t cs [= <-]. by vm_compute.
  - vm_compute; reflexivity.
  - reflexivity.
  - reflexivity.
  - apply encodable_values. constructor.
  - done.
Defined.

(** X16. A fetch never makes, removes or replaces a directory: the
    directories after a call of [download_file], however it ends, are those
    before it. *)
Theorem X16_fetch_keeps_directories E url out_path timeout w p :
  is_dir (fs (final_world (download_file E url out_path timeout w))) p
  = is_dir (fs w) p.
Proof.
  destruct (is_dir (fs w) p) eqn:Hd.
  - by apply download_file_keeps_dir.
  - destruct (is_dir (fs (final_world _)) p) eqn:Hd'; [|done].
    apply download_file_no_new_dir in Hd'. congruence.
Qed.

(** ** The pool and the totals *)

(** What one well-formed result adds to the counters. *)
Lemma count_well_formed avatar_id r s :
  well_formed_result avatar_id r →
  ∃ s', count s r = Some s'
        ∧ Summary.ok_glb s' + Summary.fail_glb s'
          = Summary.ok_glb s + Summary.fail_glb s + 1
        ∧ Summary.png_ok s' + Summary.png_fail s' - 4 * Summary.ok_glb s'
          = Summary.png_ok s + Summary.png_fail s - 4 * Summary.ok_glb s
        ∧ Summary.ok_glb s ≤ Summary.ok_glb s'
        ∧ Summary.fail_glb s ≤ Summary.fail_glb s'
        ∧ Summary.png_ok s ≤ Summary.png_ok s'
        ∧ Summary.png_fail s ≤ Summary.png_fail s'.
Proof.
  intros (_ & [((reason & Hg) & Hok & Hfail)|(Hg & Hok & Hfail & Hsum)]);
    unfold count; rewrite ?Hg.
  - eexists. split; [done|].
    replace (startswith "FAILED" ("FAILED (" +:+ reason +:+ ")")) with true
      by done.
    simpl. lia.
  - destruct Hg as [-> | ->]; eexists; (split; [done|]); simpl; lia.
Qed.

Lemma foldl_count_on_well_formed rs :
  ∀ s s',
    (∀ r, r ∈ rs → ∃ avatar_id, well_formed_result avatar_id r) →
    foldl count_on (Some s) rs = Some s' →
    Summary.ok_glb s' + Summary.fail_glb s'
    = Summary.ok_glb s + Summary.fail_glb s + Z.of_nat (length rs)
    ∧ Summary.png_ok s' + Summary.png_fail s' - 4 * Summary.ok_glb s'
      = Summary.png_ok s + Summary.png_fail s - 4 * Summary.ok_glb s
    ∧ Summary.ok_glb s ≤ Summary.ok_glb s'
    ∧ Summary.fail_glb s ≤ Summary.fail_glb s'
    ∧ Summary.png_ok s ≤ Summary.png_ok s'
    ∧ Summary.png_fail s ≤ Summary.png_fail s'.
Proof.
  induction rs as [|r rs IH]; intros s s' Hwf Hfold.
  - injection Hfold as <-. simpl. lia.
  - destruct (Hwf r) as (avatar_id & Hr); [by left|].
    destruct (count_well_formed avatar_id r s Hr) as (s1 & Hc & H1).
    cbn [foldl] in Hfold. unfold count_on at 2 in Hfold. simpl in Hfold.
    rewrite Hc in Hfold.
    apply IH in Hfold; [|intros r' Hr'; apply Hwf; by right].
    rewrite length_cons. lia.
Qed.

(** The results the pool holds are well formed, each for one of the tasks,
    and there is one future per task. *)
Lemma run_pool_well_formed E out_root base_params timeout tasks :
  ∀ w futures w',
    run_pool E out_root base_params timeout tasks w = Return futures w' →
    length futures = length tasks
    ∧ ∀ r, Done r ∈ futures →
           ∃ avatar_id, avatar_id ∈ tasks ∧ well_formed_result avatar_id r.
Proof.
  induction tasks as [|avatar_id rest IH]; intros w futures w' Hrun.
  - injection Hrun as <- <-. split; [done|]. intros r Hr. by inversion Hr.
  - cbn [run_pool] in Hrun. rewrite bind_run in Hrun. unfold try_except in Hrun.
    rewrite bind_run in Hrun.
    destruct (process_avatar _ _ _ _ _ _) as [r w1|e w1] eqn:Hp; simpl in Hrun;
      rewrite bind_run in Hrun;
      destruct (run_pool _ _ _ _ rest w1) as [fs' w2|e' w2] eqn:Hrest;
      try done; injection Hrun as <- <-;
      destruct (IH _ _ _ Hrest) as (Hlen & Hwf).
    + split; [simpl; lia|]. intros r' [[= ->]|Hr']%elem_of_cons.
      * exists avatar_id. split; [by left|]. by eapply process_avatar_shape.
      * destruct (Hwf _ Hr') as (i & Hi & Hs). exists i. split; [by right|done].
    + split; [simpl; lia|]. intros r' [[=]|Hr']%elem_of_cons.
      destruct (Hwf _ Hr') as (i & Hi & Hs). exists i. split; [by right|done].
Qed.

(** X17. The totals add up, for distinct identifiers (the tasks then do
    not meet, and run as one after the other).  When the aggregation of
    what the pool holds goes through, every task was counted once, as a model that is there or
    as one that failed, each model that is there brought four image
    outcomes and a failed one none: the models counted are as many as the
    tasks, the images counted are four times the models that are there,
    and no counter is negative. *)
Theorem X17_totals_add_up
    E out_root base_params timeout tasks w futures w1 s w2 :
  NoDup tasks →
  run_pool E out_root base_params timeout tasks w = Return futures w1 →
  aggregate futures Summary.zero w1 = Return s w2 →
  Summary.ok_glb s + Summary.fail_glb s = Z.of_nat (length tasks)
  ∧ Summary.png_ok s + Summary.png_fail s = 4 * Summary.ok_glb s
  ∧ 0 ≤ Summary.ok_glb s ∧ 0 ≤ Summary.fail_glb s
  ∧ 0 ≤ Summary.png_ok s ∧ 0 ≤ Summary.png_fail s.
Proof.
  intros _ Hpool Hagg.
  destruct (run_pool_well_formed _ _ _ _ _ _ _ _ Hpool) as (Hlen & Hwf).
  destruct (aggregate_returns _ _ _ _ _ Hagg) as (rs & -> & Hfold).
  rewrite length_fmap in Hlen.
  apply foldl_count_on_well_formed in Hfold.
  - simpl in Hfold. lia.
  - intros r Hr. destruct (Hwf r) as (i & _ & Hi); [|by exists i].
    by apply list_elem_of_fmap_2.
Qed.

Lemma X17_totals_add_up_witness :
  let s := Summary.mk 1 1 4 0 in
  Summary.ok_glb s + Summary.fail_glb s = Z.of_nat (length ["0a"; "0b"])
  ∧ Summary.png_ok s + Summary.png_fail s = 4 * Summary.ok_glb s
  ∧ 0 ≤ Summary.ok_glb s ∧ 0 ≤ Summary.fail_glb s
  ∧ 0 ≤ Summary.png_ok s ∧ 0 ≤ Summary.png_fail s.
Proof.
  intros s.
  pose (o := run_pool (service_models ["0a"]) "out" demo_params 60 ["0a"; "0b"]
               w_empty).
  apply (X17_totals_add_up (service_models ["0a"]) "out" demo_params 60
           ["0a"; "0b"] w_empty (default [] (result_of o)) (final_world o) s
           (final_world (aggregate (default [] (result_of o)) Summary.zero
                           (final_world o))));
    [apply (bool_decide_unpack _); by vm_compute|vm_compute; reflexivity..].
Defined.

(** ** Directories *)



(** ** The whole run *)

(** The pool, task by task. *)
Lemma run_pool_cons E out_root base_params timeout avatar_id rest w :
  let o := process_avatar E avatar_id out_root base_params timeout w in
  run_pool E out_root base_params timeout (avatar_id :: rest) w
  = match run_pool E out_root base_params timeout rest (final_world o) with
    | Return fs' w' =>
        Return (match o with Return r _ => Done r | Raise e _ => Failed e end
                :: fs') w'
    | Raise e w' => Raise e w'
    end.
Proof.
  cbn [run_pool]. rewrite bind_run. unfold try_except. rewrite bind_run.
  destruct (process_avatar _ _ _ _ _ _) as [r w1|e w1]; simpl;
    rewrite bind_run; by destruct (run_pool _ _ _ _ _ _).
Qed.

Lemma run_pool_events E out_root base_params timeout tasks :
  ∀ w, ∃ evs,
    trace (final_world (run_pool E out_root base_params timeout tasks w))
    = trace w ++ evs
    ∧ printed evs = []
    ∧ (length (get_urls evs) ≤ length (fetch_paths evs))%nat
    ∧ (length (fetch_paths evs) ≤ 5 * length tasks)%nat.
Proof.
  induction tasks as [|avatar_id rest IH]; intros w.
  - exists []. simpl. rewrite app_nil_r. repeat split; lia.
  - rewrite run_pool_cons.
    destruct (process_avatar_events E avatar_id out_root base_params timeout w)
      as (evs1 & Htr1 & _ & Hlen1 & Hpr1 & _).
    destruct (IH (final_world
                    (process_avatar E avatar_id out_root base_params timeout w)))
      as (evs2 & Htr2 & Hpr2 & Hlen2 & Hlen2').
    exists (evs1 ++ evs2).
    rewrite fetch_paths_app, get_urls_app, printed_app, Hpr1, Hpr2, !length_app.
    split.
    + destruct (run_pool _ _ _ _ rest _); simpl in *;
        by rewrite Htr2, Htr1, <- app_assoc.
    + split; [done|]. simpl. lia.
Qed.






Lemma fetch_paths_prints ls : fetch_paths (EvPrint <$> ls) = [].
Proof. by induction ls. Qed.

Lemma get_urls_prints ls : get_urls (EvPrint <$> ls) = [].
Proof. by induction ls. Qed.

Lemma aggregate_trace futures :
  ∀ s w, ∃ ls,
    trace (final_world (aggregate futures s w)) = trace w ++ (EvPrint <$> ls).
Proof.
  induction futures as [|[r|e] futures IH]; intros s w.
  - exists []. simpl. by rewrite app_nil_r.
  - cbn [aggregate]. destruct (glb r) as [g|].
    2:{ exists []. simpl. by rewrite app_nil_r. }
    destruct (count s r) as [s1|].
    2:{ exists []. simpl. by rewrite app_nil_r. }
    rewrite bind_run. unfold print, log.
    destruct (IH s1 (World (fs w) (trace w ++ [EvPrint (progress_line r g)])))
      as (ls & Hls).
    exists (progress_line r g :: ls). rewrite Hls. simpl.
    by rewrite <- app_assoc.
  - exists []. simpl. by rewrite app_nil_r.
Qed.



(** X20. A run over distinct identifiers attempts five fetches per task
    at most and sends one request per attempt at most, however it ends;
    without a valid identifier, or with a thread count that is not
    positive, it attempts none. *)
Theorem X20_requests_bounded completion E a lines w :
  NoDup (parse_lines lines).1 →
  ∃ evs,
    trace (final_world (main (sequential completion) E a (Lines lines) w)) = trace w ++ evs
    ∧ (length (get_urls evs) ≤ length (fetch_paths evs))%nat
    ∧ (length (fetch_paths evs)
       ≤ 5 * length (completion (parse_lines lines).1))%nat
    ∧ ((parse_lines lines).1 = [] ∨ Args.threads a ≤ 0 → fetch_paths evs = []).
Proof.
  intros _.
  rewrite main_run. unfold sequential.
  pose proof (safe_mkdir_cases E (Args.output_dir a) w) as Hmk.
  destruct (safe_mkdir _ _ _) as [[] w1|e w1].
  2:{ destruct Hmk as (-> & _). exists []. simpl. rewrite app_nil_r.
      repeat split; lia. }
  destruct Hmk as (Htr & _).
  destruct ((parse_lines lines).1) as [|i ids'] eqn:Hids.
  { eexists. simpl. rewrite Htr. split; [done|]. simpl. repeat split; lia. }
  destruct (Args.threads a <=? 0) eqn:Hth.
  { eexists. unfold pool_start. simpl. rewrite Htr. split; [done|]. simpl.
    repeat split; lia. }
  destruct (run_pool_events E (Args.output_dir a) (base_params_of a)
              (Args.timeout a) (completion (i :: ids')) (pool_start a lines w1))
    as (evs & Hev & Hpr & Hget & Hfetch).
  destruct (run_pool_cases E (Args.output_dir a) (base_params_of a)
              (Args.timeout a) (completion (i :: ids')) (pool_start a lines w1))
    as (futures & w2 & Hpool & _).
  rewrite Hpool in Hev |- *. simpl in Hev.
  destruct (aggregate_trace futures Summary.zero w2) as (ls & Hls).
  assert (∃ ls', trace (final_world
                   match aggregate futures Summary.zero w2 with
                   | Return s w3 =>
                       Return (exit_code s)
                         (World (fs w3) (trace w3 ++ (EvPrint <$> summary_lines s)))
                   | Raise e w' => Raise e w'
                   end)
                 = trace w ++ EvPrint (startup_line a (parse_lines lines).1
                                         (parse_lines lines).2)
                              :: evs ++ (EvPrint <$> ls')) as (ls' & ->).
  { destruct (aggregate _ _ _) as [s w3|e w3]; simpl in *.
    - exists (ls ++ summary_lines s).
      rewrite Hls, Hev, fmap_app. unfold pool_start. simpl.
      by rewrite Htr, <- !app_assoc.
    - exists ls. rewrite Hls, Hev. unfold pool_start. simpl.
      by rewrite Htr, <- !app_assoc. }
  eexists. split; [done|].
  change (fetch_paths (EvPrint ?l :: ?evs)) with (fetch_paths evs).
  change (get_urls (EvPrint ?l :: ?evs)) with (get_urls evs).
  rewrite fetch_paths_app, get_urls_app, fetch_paths_prints, get_urls_prints,
    !app_nil_r.
  split; [done|]. split; [done|]. intros [?|?]; [done|lia].
Qed.

Lemma X20_requests_bounded_witness :
  fetch_paths
    (trace (final_world
              (main (sequential (@rev string)) service_ok no_thread_args
                 (Lines ["0a"; "0b.glb"]) w_empty)))
  = [].
Proof.
  destruct (X20_requests_bounded (@rev string) service_ok
              no_thread_args
              ["0a"; "0b.glb"] w_empty) as (evs & Htr & _ & _ & Hnone).
  - apply (bool_decide_unpack _). by vm_compute.
  - rewrite Htr. simpl. apply Hnone. right. simpl. lia.
Defined.



(** ** The URLs of a task *)

Lemma dict_set_not_nil d k v : dict_set d k v ≠ [].
Proof. destruct d as [|[k' v'] d]; simpl; [done|]. by destruct (String.eqb k' k). Qed.

Lemma join_cons sep x l :
  l ≠ [] → urllib.join sep (x :: l) = x +:+ sep +:+ urllib.join sep l.
Proof. by destruct l. Qed.

Lemma urlencode_cons k v params :
  urllib.urlencode ((k, v) :: params)
  = q ← urllib.quote_plus_text v;
    l ← mapM (λ kv : string * text,
                v ← urllib.quote_plus_text kv.2;
                Some (urllib.quote_plus kv.1 +:+ "=" +:+ v)) params;
    Some (urllib.join "&" ((urllib.quote_plus k +:+ "=" +:+ q) :: l)).
Proof.
  unfold urllib.urlencode. cbn [mapM fst snd].
  destruct (urllib.quote_plus_text v) as [q|]; [|done]. simpl.
  by destruct (mapM _ params).
Qed.

(** The value set in a [dict] reaches the query string once, quoted, between
    two parts that do not depend on it, if the query can be encoded at
    all. *)
Lemma urlencode_dict_set d k :
  (∀ v, urllib.urlencode (dict_set d k v) = None)
  ∨ ∃ pre post, ∀ v q,
      urllib.quote_plus_text v = Some q →
      urllib.urlencode (dict_set d k v) = Some (pre +:+ q +:+ post).
Proof.
  induction d as [|[k1 v1] d IH].
  - right. exists (urllib.quote_plus k +:+ "="), "". intros v q Hq.
    cbn [dict_set]. rewrite urlencode_cons, Hq. simpl.
    by rewrite append_nil_r, append_assoc.
  - cbn [dict_set]. destruct (String.eqb k1 k).
    + destruct (mapM (λ kv : string * text,
                        v ← urllib.quote_plus_text kv.2;
                        Some (urllib.quote_plus kv.1 +:+ "=" +:+ v)) d)
        as [l|] eqn:Hl.
      * right. destruct l as [|x l].
        -- exists (urllib.quote_plus k1 +:+ "="), "". intros v q Hq.
           rewrite urlencode_cons, Hq, Hl. simpl.
           by rewrite append_nil_r, append_assoc.
        -- exists (urllib.quote_plus k1 +:+ "="),
             ("&" +:+ urllib.join "&" (x :: l)).
           intros v q Hq. rewrite urlencode_cons, Hq, Hl. simpl option_bind.
           cbn [mbind option_bind]. rewrite join_cons by done.
           by rewrite !append_assoc.
      * left. intros v. rewrite urlencode_cons, Hl.
        by destruct (urllib.quote_plus_text v).
    + destruct (urllib.quote_plus_text v1) as [q1|] eqn:Hq1.
      2:{ left. intros v. by rewrite urlencode_cons, Hq1. }
      destruct IH as [IH|(pre & post & IH)].
      * left. intros v. rewrite urlencode_cons, Hq1. simpl.
        specialize (IH v). unfold urllib.urlencode in IH.
        by destruct (mapM _ (dict_set d k v)).
      * right. exists ((urllib.quote_plus k1 +:+ "=" +:+ q1) +:+ "&" +:+ pre),
          post.
        intros v q Hq. rewrite urlencode_cons, Hq1. cbn [mbind option_bind].
        specialize (IH v q Hq). unfold urllib.urlencode in IH.
        destruct (mapM _ (dict_set d k v)) as [l|] eqn:Hl; [|done].
        cbn [fmap option_fmap option_map] in IH. injection IH as IH.
        cbn [mbind option_bind].
        rewrite join_cons.
        -- rewrite IH. by rewrite !append_assoc.
        -- intros ->. apply length_mapM in Hl.
           by destruct (dict_set d k v) eqn:Hd; [apply dict_set_not_nil in Hd|].
Qed.

Lemma png_url_quoted avatar_id base_params p q u :
  png_url avatar_id base_params p = Some u →
  png_url avatar_id base_params q = Some u →
  urllib.quote_plus_text (text_of p) = urllib.quote_plus_text (text_of q).
Proof.
  unfold png_url, render_url.
  destruct (encode_text_of p) as [bp Hp]. destruct (encode_text_of q) as [bq Hq].
  unfold urllib.quote_plus_text. rewrite Hp, Hq. simpl.
  destruct (urlencode_dict_set base_params "pose") as [Hno|(pre & post & Henc)].
  { by rewrite Hno. }
  rewrite (Henc (text_of p) (urllib.quote_bytes bp)),
    (Henc (text_of q) (urllib.quote_bytes bq))
    by (unfold urllib.quote_plus_text; by rewrite ?Hp, ?Hq).
  simpl. intros [= <-] [= H]. f_equal.
  do 4 apply append_inv_head in H. by apply append_inv_tail in H.
Qed.

Lemma glb_url_not_png avatar_id base_params pose :
  png_url avatar_id base_params pose ≠ Some (glb_url avatar_id).
Proof.
  unfold glb_url, png_url, render_url, RPM_3D_BASE, RPM_2D_BASE.
  destruct (urllib.urlencode _); [|done]. simpl.
  cbn [String.append]. intros H. by injection H.
Qed.

(** X22. Within one task no two requests go to the same URL: the pose
    reaches the image URL, so that the URLs rendered for two poses of the
    list are different, whatever the identifier and the parameters, a
    [pose] among them included; and none is the URL of the model. *)
Theorem X22_urls_distinct
    (avatar_id : string) (base_params : list (string * text)) (p q u : string) :
  p ∈ POSES → q ∈ POSES →
  png_url avatar_id base_params p = Some u →
  (png_url avatar_id base_params q = Some u → p = q)
  ∧ u ≠ glb_url avatar_id.
Proof.
  intros Hp Hq Hu. split.
  - intros Hu'. pose proof (png_url_quoted _ _ _ _ _ Hu Hu') as H.
    revert H. unfold POSES in Hp, Hq.
    repeat (apply elem_of_cons in Hp as [->|Hp]); [..|by inversion Hp];
      repeat (apply elem_of_cons in Hq as [->|Hq]); try (by inversion Hq);
      by vm_compute.
  - intros ->. by apply glb_url_not_png in Hu.
Qed.

Lemma X22_urls_distinct_witness :
  (png_url "0a1b" demo_params "standing"
   = Some ("https://models.readyplayer.me/0a1b.png?size=1024&camera=portrait"
           +:+ "&background=0%2C0%2C0&expression=happy&pose=relaxed") →
   "relaxed" = "standing")
  ∧ "https://models.readyplayer.me/0a1b.png?size=1024&camera=portrait"
    +:+ "&background=0%2C0%2C0&expression=happy&pose=relaxed"
    ≠ glb_url "0a1b".
Proof.
  apply (X22_urls_distinct "0a1b" demo_params "relaxed" "standing").
  - apply (bool_decide_unpack _). by vm_compute.
  - apply (bool_decide_unpack _). by vm_compute.
  - reflexivity.
Defined.
